(** * Camera subsystem of the lychee collector: transform pipeline, feed, registry

    A shallow embedding of [lychee_collector/core/camera_manager.py]:
    the image processor ([ImageProcessor]), a single camera feed
    ([CameraFeed]) and the camera registry ([CameraManager]).

    Python integers are [Z]; a frame (a numpy array of shape
    height x width) is the list of its rows; a Python [None] is [None];
    dictionaries are [gmap]s; the OpenCV capture devices and the objects
    living on the Python heap are explicit state. *)

From stdpp Require Import gmap strings list fin_maps.
From Stdlib Require Import DecimalString.

#[local] Open Scope Z_scope.

(** ** Frames: numpy arrays and the OpenCV operations the pipeline calls *)

(** A pixel value; the pipeline only moves pixels around, it never looks
    inside them. *)
Definition pixel : Type := Z.

(** A frame, row by row: [nth r (nth c ...)] is the pixel at row [r],
    column [c]. *)
Definition ndarray : Type := list (list pixel).

Definition height (a : ndarray) : Z := Z.of_nat (length a).
Definition width (a : ndarray) : Z := Z.of_nat (length (List.hd [] a)).

(** [a.shape[:2]] is [(height, width)]. *)
Definition shape (a : ndarray) : Z * Z := (height a, width a).

(** [a.copy()]: a fresh array with the same content. *)
Definition copy (a : ndarray) : ndarray := a.

(** All rows have the same length [w], and there are [h] of them. *)
Definition rect (h w : nat) (a : ndarray) : Prop :=
  length a = h ∧ Forall (λ r, length r = w) a.

(** A raster with at least one row and one column, decided by computation. *)
Definition is_raster (a : ndarray) : bool :=
  (0 <? height a) && (0 <? width a)
  && forallb (λ r, Z.of_nat (length r) =? width a) a.

(** Python slice bounds: a negative bound counts from the end, and both
    ends are cut to [0, len]. *)
Definition slice_bound (len i : Z) : Z :=
  if i <? 0 then Z.max 0 (i + len) else Z.min i len.

(** [l[lo:hi]] *)
Definition py_slice {A} (lo hi : Z) (l : list A) : list A :=
  let len := Z.of_nat (length l) in
  let a := slice_bound len lo in
  let b := slice_bound len hi in
  take (Z.to_nat (b - a)) (drop (Z.to_nat a) l).

(** [a[r0:r1, c0:c1]] *)
Definition slice2 (r0 r1 c0 c1 : Z) (a : ndarray) : ndarray :=
  py_slice c0 c1 <$> py_slice r0 r1 a.

(** [cv2.transpose]: row [j] of the result is column [j] of the source. *)
Definition cv2_transpose (a : ndarray) : ndarray :=
  (λ j, (λ r, nth j r 0) <$> a) <$> seq 0 (length (List.hd [] a)).

(** [cv2.flip(src, flipCode)]: 0 flips around the x-axis (rows reversed),
    a positive code around the y-axis (every row reversed), a negative one
    around both. *)
Definition cv2_flip (a : ndarray) (flipCode : Z) : ndarray :=
  if flipCode =? 0 then reverse a
  else if 0 <? flipCode then reverse <$> a
  else reverse (reverse <$> a).

Inductive RotateFlags :=
  | ROTATE_90_CLOCKWISE
  | ROTATE_180
  | ROTATE_90_COUNTERCLOCKWISE.

(** [cv2.rotate], as OpenCV implements it: a transposition followed by a
    flip for the quarter turns, a flip around both axes for the half turn. *)
Definition cv2_rotate (a : ndarray) (code : RotateFlags) : ndarray :=
  match code with
  | ROTATE_90_CLOCKWISE => cv2_flip (cv2_transpose a) 1
  | ROTATE_180 => cv2_flip a (-1)
  | ROTATE_90_COUNTERCLOCKWISE => cv2_flip (cv2_transpose a) 0
  end.

(** ** [class ImageProcessor] *)

Record ImageProcessor := {
  rotation_angle : Z;
  flip_horizontal : bool;
  flip_vertical : bool;
  crop_region : option (Z * Z * Z * Z)   (* (x, y, w, h) or None *)
}.

(** [ImageProcessor.__init__] *)
Definition ImageProcessor_init : ImageProcessor :=
  {| rotation_angle := 0; flip_horizontal := false;
     flip_vertical := false; crop_region := None |}.

Definition reset (self : ImageProcessor) : ImageProcessor :=
  {| rotation_angle := 0; flip_horizontal := false;
     flip_vertical := false; crop_region := None |}.

(** Python's [%] with a positive modulus is [Z.modulo]. *)
Definition set_rotation (self : ImageProcessor) (angle : Z) : ImageProcessor :=
  {| rotation_angle := angle `mod` 360;
     flip_horizontal := flip_horizontal self;
     flip_vertical := flip_vertical self;
     crop_region := crop_region self |}.

Definition rotate_clockwise (self : ImageProcessor) : ImageProcessor :=
  {| rotation_angle := (rotation_angle self + 90) `mod` 360;
     flip_horizontal := flip_horizontal self;
     flip_vertical := flip_vertical self;
     crop_region := crop_region self |}.

Definition rotate_counterclockwise (self : ImageProcessor) : ImageProcessor :=
  {| rotation_angle := (rotation_angle self - 90) `mod` 360;
     flip_horizontal := flip_horizontal self;
     flip_vertical := flip_vertical self;
     crop_region := crop_region self |}.

Definition toggle_flip_horizontal (self : ImageProcessor) : ImageProcessor :=
  {| rotation_angle := rotation_angle self;
     flip_horizontal := negb (flip_horizontal self);
     flip_vertical := flip_vertical self;
     crop_region := crop_region self |}.

Definition toggle_flip_vertical (self : ImageProcessor) : ImageProcessor :=
  {| rotation_angle := rotation_angle self;
     flip_horizontal := flip_horizontal self;
     flip_vertical := negb (flip_vertical self);
     crop_region := crop_region self |}.

Definition set_crop_region (self : ImageProcessor) (x y w h : Z) : ImageProcessor :=
  {| rotation_angle := rotation_angle self;
     flip_horizontal := flip_horizontal self;
     flip_vertical := flip_vertical self;
     crop_region := Some (x, y, w, h) |}.

Definition clear_crop (self : ImageProcessor) : ImageProcessor :=
  {| rotation_angle := rotation_angle self;
     flip_horizontal := flip_horizontal self;
     flip_vertical := flip_vertical self;
     crop_region := None |}.

(** The three stages of [process_frame], in the order of the source.
    "Apply rotation first": the [if]/[elif] chain on [rotation_angle]. *)
Definition apply_rotation (self : ImageProcessor) (processed : ndarray) : ndarray :=
  if rotation_angle self =? 90 then cv2_rotate processed ROTATE_90_CLOCKWISE
  else if rotation_angle self =? 180 then cv2_rotate processed ROTATE_180
  else if rotation_angle self =? 270 then cv2_rotate processed ROTATE_90_COUNTERCLOCKWISE
  else processed.

(** "Apply flips" *)
Definition apply_flips (self : ImageProcessor) (processed : ndarray) : ndarray :=
  if flip_horizontal self && flip_vertical self then cv2_flip processed (-1)
  else if flip_horizontal self then cv2_flip processed 1
  else if flip_vertical self then cv2_flip processed 0
  else processed.

(** "Ensure crop region is within bounds": the rectangle that is really cut
    out of [processed] for the stored request. *)
Definition clamp_crop (region : Z * Z * Z * Z) (processed : ndarray)
  : Z * Z * Z * Z :=
  let '(x, y, w, h) := region in
  let '(height, width) := shape processed in
  let x := Z.max 0 (Z.min x (width - 1)) in
  let y := Z.max 0 (Z.min y (height - 1)) in
  let w := Z.max 1 (Z.min w (width - x)) in
  let h := Z.max 1 (Z.min h (height - y)) in
  (x, y, w, h).

(** "Apply crop last"; a stored 4-tuple is always truthy, [None] is not. *)
Definition apply_crop (self : ImageProcessor) (processed : ndarray) : ndarray :=
  match crop_region self with
  | Some region =>
      let '(x, y, w, h) := clamp_crop region processed in
      slice2 y (y + h) x (x + w) processed
  | None => processed
  end.

Definition process_frame (self : ImageProcessor) (frame : option ndarray)
  : option ndarray :=
  match frame with
  | None => None
  | Some frame =>
      let processed := copy frame in
      let processed := apply_rotation self processed in
      let processed := apply_flips self processed in
      let processed := apply_crop self processed in
      Some processed
  end.

(** ** The outside world: OpenCV capture devices *)

(** A call either returns a value or raises a Python [Exception]. *)
Inductive result (A : Type) :=
  | Ok (a : A)
  | Raise.
Arguments Ok {A} a.
Arguments Raise {A}.

Inductive Backend := CAP_AVFOUNDATION.

Inductive CapProp :=
  | CAP_PROP_BUFFERSIZE
  | CAP_PROP_FRAME_WIDTH
  | CAP_PROP_FRAME_HEIGHT
  | CAP_PROP_FPS.

(** What sits behind a camera index: a device whose backend raises when it
    is opened, or a device that opens and whose successive [read()] calls
    return the listed [(ret, frame)] pairs. An index with no device gives a
    capture object that is not opened. *)
Inductive Device :=
  | Faulty
  | Present (frames : list (bool * option ndarray)).

(** A [cv2.VideoCapture] object. *)
Record VideoCapture := {
  cap_index : Z;
  cap_opened : bool;
  cap_props : list (CapProp * Z);
  cap_pending : list (bool * option ndarray)
}.

(** A frame callback: it is known by an identifier, and a call with a
    frame returns or raises. A callback observes the frame it is given; it
    does not reach back into the feed that calls it. *)
Record Callable := {
  cb_id : nat;
  cb_run : option ndarray → result ()
}.

(** The devices, every capture object constructed so far (by handle), and
    the calls made to frame callbacks so far, oldest first. *)
Record World := {
  devices : gmap Z Device;
  captures : gmap nat VideoCapture;
  notified : list (nat * option ndarray)
}.

Definition with_captures (w : World) (c : gmap nat VideoCapture) : World :=
  {| devices := devices w; captures := c; notified := notified w |}.

(** [cv2.VideoCapture(index, backend)] *)
Definition VideoCapture_new (index : Z) (backend : Backend) (w : World)
  : result nat * World :=
  let h := fresh (dom (captures w)) in
  match devices w !! index with
  | Some Faulty => (Raise, w)
  | Some (Present frames) =>
      (Ok h, with_captures w (<[h := {| cap_index := index; cap_opened := true;
                                        cap_props := []; cap_pending := frames |}]>
                                (captures w)))
  | None =>
      (Ok h, with_captures w (<[h := {| cap_index := index; cap_opened := false;
                                        cap_props := []; cap_pending := [] |}]>
                                (captures w)))
  end.

(** [cap.isOpened()] *)
Definition isOpened (h : nat) (w : World) : bool :=
  match captures w !! h with
  | Some c => cap_opened c
  | None => false
  end.

(** [cap.set(prop, value)]: a request the device is free to ignore; the
    value it returns is not used by the callers. *)
Definition cap_set (h : nat) (prop : CapProp) (value : Z) (w : World)
  : result () * World :=
  (Ok (), with_captures w
     (alter (λ c, {| cap_index := cap_index c; cap_opened := cap_opened c;
                     cap_props := cap_props c ++ [(prop, value)];
                     cap_pending := cap_pending c |}) h (captures w))).

(** [cap.read()]: the next [(ret, frame)] of an opened capture;
    [(False, None)] when it is closed or has nothing more to give. *)
Definition cap_read (h : nat) (w : World)
  : result (bool * option ndarray) * World :=
  match captures w !! h with
  | Some c =>
      if cap_opened c then
        match cap_pending c with
        | r :: rest =>
            (Ok r, with_captures w
               (<[h := {| cap_index := cap_index c; cap_opened := true;
                          cap_props := cap_props c; cap_pending := rest |}]>
                  (captures w)))
        | [] => (Ok (false, None), w)
        end
      else (Ok (false, None), w)
  | None => (Ok (false, None), w)
  end.

(** [cap.release()] *)
Definition cap_release (h : nat) (w : World) : result () * World :=
  (Ok (), with_captures w
     (alter (λ c, {| cap_index := cap_index c; cap_opened := false;
                     cap_props := cap_props c;
                     cap_pending := cap_pending c |}) h (captures w))).

(** ** [class CameraFeed] *)

Record CameraFeed := {
  camera_index : Z;
  name : string;
  camera : option nat;               (* handle of a VideoCapture, or None *)
  is_active : bool;
  is_connected : bool;
  processor : ImageProcessor;
  capture_thread : option nat;       (* set by start_feed only *)
  stop_capture : bool;
  current_frame : option ndarray;
  processed_frame : option ndarray;
  frame_callbacks : list Callable
}.

(** [CameraFeed.__init__] *)
Definition CameraFeed_init (camera_index : Z) (name : string) : CameraFeed :=
  {| camera_index := camera_index; name := name; camera := None;
     is_active := false; is_connected := false;
     processor := ImageProcessor_init; capture_thread := None;
     stop_capture := false; current_frame := None;
     processed_frame := None; frame_callbacks := [] |}.

Definition set_camera (v : option nat) (f : CameraFeed) : CameraFeed :=
  {| camera_index := camera_index f; name := name f; camera := v;
     is_active := is_active f; is_connected := is_connected f;
     processor := processor f; capture_thread := capture_thread f;
     stop_capture := stop_capture f; current_frame := current_frame f;
     processed_frame := processed_frame f;
     frame_callbacks := frame_callbacks f |}.

Definition set_is_connected (v : bool) (f : CameraFeed) : CameraFeed :=
  {| camera_index := camera_index f; name := name f; camera := camera f;
     is_active := is_active f; is_connected := v;
     processor := processor f; capture_thread := capture_thread f;
     stop_capture := stop_capture f; current_frame := current_frame f;
     processed_frame := processed_frame f;
     frame_callbacks := frame_callbacks f |}.

Definition set_processor (v : ImageProcessor) (f : CameraFeed) : CameraFeed :=
  {| camera_index := camera_index f; name := name f; camera := camera f;
     is_active := is_active f; is_connected := is_connected f;
     processor := v; capture_thread := capture_thread f;
     stop_capture := stop_capture f; current_frame := current_frame f;
     processed_frame := processed_frame f;
     frame_callbacks := frame_callbacks f |}.

Definition set_current_frame (v : option ndarray) (f : CameraFeed) : CameraFeed :=
  {| camera_index := camera_index f; name := name f; camera := camera f;
     is_active := is_active f; is_connected := is_connected f;
     processor := processor f; capture_thread := capture_thread f;
     stop_capture := stop_capture f; current_frame := v;
     processed_frame := processed_frame f;
     frame_callbacks := frame_callbacks f |}.

Definition set_processed_frame (v : option ndarray) (f : CameraFeed) : CameraFeed :=
  {| camera_index := camera_index f; name := name f; camera := camera f;
     is_active := is_active f; is_connected := is_connected f;
     processor := processor f; capture_thread := capture_thread f;
     stop_capture := stop_capture f; current_frame := current_frame f;
     processed_frame := v;
     frame_callbacks := frame_callbacks f |}.

Definition set_frame_callbacks (v : list Callable) (f : CameraFeed) : CameraFeed :=
  {| camera_index := camera_index f; name := name f; camera := camera f;
     is_active := is_active f; is_connected := is_connected f;
     processor := processor f; capture_thread := capture_thread f;
     stop_capture := stop_capture f; current_frame := current_frame f;
     processed_frame := processed_frame f;
     frame_callbacks := v |}.

(** [v is not None] *)
Definition is_not_None {A} (v : option A) : bool :=
  match v with Some _ => true | None => false end.

(** A method runs on its object and on the world, and returns or raises;
    what it did before raising stays done. *)
Record Ctx := { self : CameraFeed; world : World }.

Definition method (A : Type) : Type := Ctx → result A * Ctx.

#[global] Instance method_ret : MRet method := λ A a s, (Ok a, s).

#[global] Instance method_bind : MBind method := λ A B k m s,
  match m s with
  | (Ok a, s') => k a s'
  | (Raise, s') => (Raise, s')
  end.

(** [try: body / except Exception: handler] *)
Definition try_except {A} (body handler : method A) : method A := λ s,
  match body s with
  | (Ok a, s') => (Ok a, s')
  | (Raise, s') => handler s'
  end.

Definition raise {A} : method A := λ s, (Raise, s).

(** Read a field of [self]. *)
Definition get {A} (field : CameraFeed → A) : method A :=
  λ s, (Ok (field (self s)), s).

(** Assign a field of [self]. *)
Definition assign (upd : CameraFeed → CameraFeed) : method () :=
  λ s, (Ok (), {| self := upd (self s); world := world s |}).

(** Call into OpenCV. *)
Definition cv2 {A} (call : World → result A * World) : method A := λ s,
  let '(r, w) := call (world s) in (r, {| self := self s; world := w |}).

Definition add_frame_callback (callback : Callable) : method () :=
  cbs ← get frame_callbacks;
  assign (set_frame_callbacks (cbs ++ [callback])).

(** [connect]. The body of the [try] gives [Some b] where the source
    executes [return b] and [None] where it falls through to the two
    statements after the [try]. *)
Definition connect : method bool :=
  returned ← try_except
    (index ← get camera_index;
     cam ← cv2 (VideoCapture_new index CAP_AVFOUNDATION);
     assign (set_camera (Some cam));;
     opened ← cv2 (λ w, (Ok (isOpened cam w), w));
     if opened : bool then
       cv2 (cap_set cam CAP_PROP_BUFFERSIZE 1);;
       cv2 (cap_set cam CAP_PROP_FRAME_WIDTH 1920);;
       cv2 (cap_set cam CAP_PROP_FRAME_HEIGHT 1080);;
       cv2 (cap_set cam CAP_PROP_FPS 30);;
       '(ret, frame) ← cv2 (cap_read cam);
       if ret && is_not_None frame then
         assign (set_is_connected true);;
         mret (Some true)
       else
         cv2 (cap_release cam);;
         assign (set_camera None);;
         mret None
     else
       assign (set_camera None);;
       mret None)
    (assign (set_camera None);;
     mret None);
  match returned with
  | Some b => mret b
  | None =>
      assign (set_is_connected false);;
      mret false
  end.

(** One call [callback(self.processed_frame)] of the capture loop, recorded
    in the world. *)
Definition call_callback (callback : Callable) : method () := λ s,
  let frame := processed_frame (self s) in
  (cb_run callback frame,
   {| self := self s;
      world := {| devices := devices (world s);
                  captures := captures (world s);
                  notified := notified (world s) ++ [(cb_id callback, frame)] |} |}).

(** [for callback in self.frame_callbacks: try: ... except Exception: ...] *)
Fixpoint for_callbacks (callbacks : list Callable) : method () :=
  match callbacks with
  | [] => mret ()
  | callback :: rest =>
      try_except (call_callback callback) (mret ());;
      for_callbacks rest
  end.

(** The condition of the [while] of [_capture_loop]. *)
Definition loop_condition (s : Ctx) : bool :=
  negb (stop_capture (self s))
  && match camera (self s) with
     | Some cam => isOpened cam (world s)
     | None => false
     end.

(** The body of the [while] of [_capture_loop]; [frame.copy()] on a [None]
    frame raises. The two assignments are made with the frame lock held.
    The pause [time.sleep(1/30)] that ends the body changes nothing. *)
Definition loop_body : method () :=
  cam ← get camera;
  match cam with
  | None => raise
  | Some cam =>
      '(ret, frame) ← cv2 (cap_read cam);
      if ret : bool then
        match frame with
        | None => raise
        | Some frame =>
            assign (set_current_frame (Some (copy frame)));;
            proc ← get processor;
            assign (set_processed_frame (process_frame proc (Some frame)))
        end;;
        callbacks ← get frame_callbacks;
        for_callbacks callbacks
      else mret ()
  end.

(** How one turn of the loop ends. *)
Inductive Loop :=
  | Running (s : Ctx)    (* the body ran; the condition is tested again *)
  | Exited (s : Ctx)     (* the condition was false *)
  | Crashed (s : Ctx).   (* an exception left the loop *)

Definition loop_turn (s : Ctx) : Loop :=
  if loop_condition s then
    match loop_body s with
    | (Ok _, s') => Running s'
    | (Raise, s') => Crashed s'
    end
  else Exited s.

(** [_capture_loop], for at most [turns] turns. *)
Fixpoint _capture_loop (turns : nat) (s : Ctx) : Loop :=
  match turns with
  | O => Running s
  | S turns =>
      match loop_turn s with
      | Running s' => _capture_loop turns s'
      | stopped => stopped
      end
  end.

(** [get_current_frame], run with the frame lock held. *)
Definition get_current_frame (f : CameraFeed) (processed : bool)
  : option ndarray :=
  if processed then
    match processed_frame f with Some a => Some (copy a) | None => None end
  else
    match current_frame f with Some a => Some (copy a) | None => None end.

(** ** The feed shared between threads

    The capture thread and the threads that call [get_current_frame] or
    change the processor's settings take turns. The assignments of the loop
    to [current_frame] and [processed_frame] and the read of
    [get_current_frame] are made with [frame_lock] held, so they never
    overlap: a schedule is a sequence of whole actions. The setters of the
    processor take no lock; a schedule places them between two turns of the
    loop, and says nothing of a setter that would run while the loop is in
    the middle of [process_frame]. *)

Inductive Action :=
  | CaptureTurn                                   (* the capture thread: one turn of its loop *)
  | Consumer (processed : bool)                   (* some thread calls get_current_frame(processed) *)
  | Settings (change : ImageProcessor → ImageProcessor).
                                                  (* some thread calls a setter of the processor *)

Record Threads := {
  shared : Ctx;            (* the feed object and the world *)
  capture_alive : bool     (* the capture thread has not left its loop *)
}.

(** What one action does, and the frames it hands to its caller: a pair
    [(processed, frame)] for each call of [get_current_frame]. *)
Definition act (a : Action) (t : Threads)
  : Threads * list (bool * option ndarray) :=
  match a with
  | CaptureTurn =>
      if capture_alive t then
        match loop_turn (shared t) with
        | Running s => ({| shared := s; capture_alive := true |}, [])
        | Exited s | Crashed s => ({| shared := s; capture_alive := false |}, [])
        end
      else (t, [])
  | Consumer processed =>
      (t, [(processed, get_current_frame (self (shared t)) processed)])
  | Settings change =>
      ({| shared := {| self := set_processor (change (processor (self (shared t))))
                                             (self (shared t));
                       world := world (shared t) |};
          capture_alive := capture_alive t |}, [])
  end.

Fixpoint run (schedule : list Action) (t : Threads)
  : Threads * list (bool * option ndarray) :=
  match schedule with
  | [] => (t, [])
  | a :: rest =>
      let '(t1, seen1) := act a t in
      let '(t2, seen2) := run rest t1 in
      (t2, seen1 ++ seen2)
  end.

(** A raw frame and a processed frame come from the same capture: the
    processed one is what the pipeline made of the raw one, under the
    settings of that moment. *)
Definition same_capture (raw processed : option ndarray) : Prop :=
  ∃ settings, processed = process_frame settings raw.

Definition is_settings (a : Action) : bool :=
  match a with Settings _ => true | _ => false end.

(** ** [class CameraManager] *)

(** What the host answers to the two queries of the manager:
    [system_profiler SPCameraDataType -json] gives, when it succeeds, the
    list of cameras with the [_name] entry of each (if it has one);
    [iphone_camera] is what [detect_iphone_camera] returns. *)
Record Host := {
  system_profiler : option (list (option string));
  iphone_camera : option Z
}.

(** Feed objects live in the store of the interpreter; the manager's
    dictionary maps a feed name to the address of a feed object. *)
Record CameraManager := {
  available_cameras : list Z;
  camera_feeds : gmap string nat
}.

Record Store := {
  objects : gmap nat CameraFeed;
  outside : World
}.

(** [str(n)] for an integer *)
Definition str (n : Z) : string := NilZero.string_of_int (Z.to_int n).

Definition get_camera_names (self : CameraManager) (host : Host) : gmap Z string :=
  let camera_names : gmap Z string :=
    match system_profiler host with
    | Some cameras =>
        foldl (λ (camera_names : gmap Z string) '(i, camera),
                 match available_cameras self !! (i : nat) with
                 | Some idx =>
                     <[idx := default ("Camera " +:+ str idx) camera]> camera_names
                 | None => camera_names
                 end)
              ∅ (zip (seq 0 (length cameras)) cameras)
    | None => ∅
    end in
  (* Fill in missing names *)
  foldl (λ (camera_names : gmap Z string) idx,
           match camera_names !! idx with
           | Some _ => camera_names
           | None => <[idx := "Camera " +:+ str idx]> camera_names
           end)
        camera_names (available_cameras self).

Definition create_camera_feed (self : CameraManager) (camera_index : Z)
    (feed_name : string) (host : Host) (st : Store)
  : nat * CameraManager * Store :=
  let camera_names := get_camera_names self host in
  let camera_name :=
    default ("Camera " +:+ str camera_index) (camera_names !! camera_index) in
  let feed := fresh (dom (objects st)) in
  (feed,
   {| available_cameras := available_cameras self;
      camera_feeds := <[feed_name := feed]> (camera_feeds self) |},
   {| objects := <[feed := CameraFeed_init camera_index camera_name]> (objects st);
      outside := outside st |}).

Definition get_feed (self : CameraManager) (feed_name : string) : option nat :=
  camera_feeds self !! feed_name.

(** The entries [get_available_camera_options] builds. *)
Definition detected_option (camera_names : gmap Z string) (idx : Z) : Z * string :=
  (idx, default ("Camera " +:+ str idx) (camera_names !! idx)).

Definition iphone_option (iphone_idx : Z) : Z * string :=
  (iphone_idx, "iPhone Camera (Index " +:+ str iphone_idx +:+ ")").

Definition try_option (idx : Z) : Z * string :=
  (idx, "Try Camera " +:+ str idx +:+ " (Possible iPhone)").

Definition get_available_camera_options (self : CameraManager) (host : Host)
  : list (Z * string) :=
  let camera_names := get_camera_names self host in
  (* Add detected cameras *)
  let options := detected_option camera_names <$> available_cameras self in
  (* Try to add iPhone camera if not already in list *)
  let options :=
    match iphone_camera host with
    | Some iphone_idx =>
        if bool_decide (iphone_idx ∉ available_cameras self)
        then options ++ [iphone_option iphone_idx]
        else options
    | None => options
    end in
  (* Add some common iPhone camera indices to try *)
  foldl (λ options idx,
           if bool_decide (idx ∉ options.*1)
           then options ++ [try_option idx]
           else options)
        options [2; 3; 4; 5].

(** * The rest of the module *)

(** ** [class ImageProcessor]: the settings as a dictionary *)

(** The values [get_settings_dict] puts in its dictionary. *)
Inductive PyValue :=
  | PyInt (n : Z)
  | PyBool (b : bool)
  | PyNone
  | PyTuple4 (x y w h : Z).

Definition crop_value (region : option (Z * Z * Z * Z)) : PyValue :=
  match region with
  | Some (x, y, w, h) => PyTuple4 x y w h
  | None => PyNone
  end.

Definition get_settings_dict (self : ImageProcessor) : gmap string PyValue :=
  {[ "rotation_angle" := PyInt (rotation_angle self);
     "flip_horizontal" := PyBool (flip_horizontal self);
     "flip_vertical" := PyBool (flip_vertical self);
     "crop_region" := crop_value (crop_region self) ]}.

Definition as_int (v : PyValue) : option Z :=
  match v with PyInt n => Some n | _ => None end.

Definition as_bool (v : PyValue) : option bool :=
  match v with PyBool b => Some b | _ => None end.

Definition as_crop (v : PyValue) : option (option (Z * Z * Z * Z)) :=
  match v with
  | PyTuple4 x y w h => Some (Some (x, y, w, h))
  | PyNone => Some None
  | _ => None
  end.

(** [load_settings_dict]: each field is [settings.get(key, default)], taken
    as it is. The result is [None] when the dictionary holds, under one of
    the four keys, a value of another type than [get_settings_dict] writes
    there: the source stores such a value all the same, and the processor
    it makes is outside this model. *)
Definition load_settings_dict (self : ImageProcessor)
    (settings : gmap string PyValue) : option ImageProcessor :=
  angle ← as_int (default (PyInt 0) (settings !! "rotation_angle"));
  horizontal ← as_bool (default (PyBool false) (settings !! "flip_horizontal"));
  vertical ← as_bool (default (PyBool false) (settings !! "flip_vertical"));
  region ← as_crop (default PyNone (settings !! "crop_region"));
  Some {| rotation_angle := angle; flip_horizontal := horizontal;
          flip_vertical := vertical; crop_region := region |}.

(** ** Sequences of changes to the settings *)

(** The calls that change the settings of a processor. *)
Inductive Edit :=
  | EditReset
  | EditSetRotation (angle : Z)
  | EditRotateClockwise
  | EditRotateCounterclockwise
  | EditToggleFlipHorizontal
  | EditToggleFlipVertical
  | EditSetCropRegion (x y w h : Z)
  | EditClearCrop.

Definition edit (self : ImageProcessor) (e : Edit) : ImageProcessor :=
  match e with
  | EditReset => reset self
  | EditSetRotation angle => set_rotation self angle
  | EditRotateClockwise => rotate_clockwise self
  | EditRotateCounterclockwise => rotate_counterclockwise self
  | EditToggleFlipHorizontal => toggle_flip_horizontal self
  | EditToggleFlipVertical => toggle_flip_vertical self
  | EditSetCropRegion x y w h => set_crop_region self x y w h
  | EditClearCrop => clear_crop self
  end.

(** A call that asks for a whole number of quarter turns, if it asks for
    an angle at all. *)
Definition asks_quarter_turns (e : Edit) : bool :=
  match e with
  | EditSetRotation angle => angle `mod` 90 =? 0
  | _ => true
  end.

(** One of the four angles the pipeline rotates by or leaves alone. *)
Definition quarter_turn (angle : Z) : Prop :=
  angle = 0 ∨ angle = 90 ∨ angle = 180 ∨ angle = 270.

(** ** [class CameraFeed]: subscription, lifecycle, single capture *)

Definition set_is_active (v : bool) (f : CameraFeed) : CameraFeed :=
  {| camera_index := camera_index f; name := name f; camera := camera f;
     is_active := v; is_connected := is_connected f;
     processor := processor f; capture_thread := capture_thread f;
     stop_capture := stop_capture f; current_frame := current_frame f;
     processed_frame := processed_frame f;
     frame_callbacks := frame_callbacks f |}.

Definition set_stop_capture (v : bool) (f : CameraFeed) : CameraFeed :=
  {| camera_index := camera_index f; name := name f; camera := camera f;
     is_active := is_active f; is_connected := is_connected f;
     processor := processor f; capture_thread := capture_thread f;
     stop_capture := v; current_frame := current_frame f;
     processed_frame := processed_frame f;
     frame_callbacks := frame_callbacks f |}.

Definition set_capture_thread (v : option nat) (f : CameraFeed) : CameraFeed :=
  {| camera_index := camera_index f; name := name f; camera := camera f;
     is_active := is_active f; is_connected := is_connected f;
     processor := processor f; capture_thread := v;
     stop_capture := stop_capture f; current_frame := current_frame f;
     processed_frame := processed_frame f;
     frame_callbacks := frame_callbacks f |}.

(** [list.remove(x)]: the first element equal to [x] goes; a callback is
    the one asked for when it has its identifier. *)
Fixpoint remove_first (id : nat) (callbacks : list Callable) : list Callable :=
  match callbacks with
  | [] => []
  | callback :: rest =>
      if decide (cb_id callback = id) then rest
      else callback :: remove_first id rest
  end.

Definition remove_frame_callback (callback : Callable) : method () :=
  callbacks ← get frame_callbacks;
  if bool_decide (cb_id callback ∈ cb_id <$> callbacks)
  then assign (set_frame_callbacks (remove_first (cb_id callback) callbacks))
  else mret ().

(** [stop_feed], as far as the feed goes. Between its two assignments the
    source waits for the capture thread ([join], one second at most); the
    wait changes neither the feed nor the world, and what becomes of the
    thread is told by [call_stop_feed]. *)
Definition stop_feed : method () :=
  assign (set_stop_capture true);;
  assign (set_is_active false).

Definition disconnect : method () :=
  stop_feed;;
  cam ← get camera;
  match cam with
  | Some cam =>
      cv2 (cap_release cam);;
      assign (set_camera None)
  | None => mret ()
  end;;
  assign (set_is_connected false).

(** [start_feed]; [thread] is the [threading.Thread] object the call makes
    when it comes to that. That the thread starts running is told by
    [call_start_feed]. *)
Definition start_feed (thread : nat) : method bool :=
  connected ← get is_connected;
  proceed ← (if connected : bool then mret true else connect);
  if proceed : bool then
    active ← get is_active;
    if active : bool then mret true
    else
      assign (set_stop_capture false);;
      assign (set_capture_thread (Some thread));;
      assign (set_is_active true);;
      mret true
  else mret false.

(** [capture_frame] *)
Definition capture_frame (processed : bool) : method (option ndarray) :=
  active ← get is_active;
  cam ← get camera;
  match cam with
  | Some cam =>
      if active : bool then
        '(ret, frame) ← cv2 (cap_read cam);
        if ret : bool then
          if processed then
            proc ← get processor;
            mret (process_frame proc frame)
          else mret frame
        else mret None
      else mret None
  | None => mret None
  end.

(** ** A feed and its capture threads

    The feed object and the world, the capture threads that have not left
    their loop, and the number of threads started so far (the next thread
    gets it as its name). *)
Record Runtime := {
  feed : Ctx;
  alive : gset nat;
  started : nat
}.

(** A call of [start_feed] from some thread. A capture thread starts when
    the call returns [True] for a feed that was not active. *)
Definition call_start_feed (r : Runtime) : result bool * Runtime :=
  let was_active := is_active (self (feed r)) in
  match start_feed (started r) (feed r) with
  | (Ok true, s) =>
      if was_active
      then (Ok true, {| feed := s; alive := alive r; started := started r |})
      else (Ok true, {| feed := s; alive := {[ started r ]} ∪ alive r;
                        started := S (started r) |})
  | (returned, s) =>
      (returned, {| feed := s; alive := alive r; started := started r |})
  end.

(** A call of [stop_feed]. [joined] tells how the wait for the thread in
    [capture_thread] ended: the thread has left its loop ([true]), or the
    second has passed and it is still there ([false]). *)
Definition call_stop_feed (joined : bool) (r : Runtime) : Runtime :=
  {| feed := snd (stop_feed (feed r));
     alive := match capture_thread (self (feed r)) with
              | Some thread => if joined then alive r ∖ {[ thread ]} else alive r
              | None => alive r
              end;
     started := started r |}.

(** A call of [disconnect]; [joined] as for [call_stop_feed]. *)
Definition call_disconnect (joined : bool) (r : Runtime) : Runtime :=
  {| feed := snd (disconnect (feed r));
     alive := match capture_thread (self (feed r)) with
              | Some thread => if joined then alive r ∖ {[ thread ]} else alive r
              | None => alive r
              end;
     started := started r |}.

(** One turn of the loop of capture thread [thread], if it is alive. *)
Definition thread_turn (thread : nat) (r : Runtime) : Runtime :=
  if bool_decide (thread ∈ alive r) then
    match loop_turn (feed r) with
    | Running s => {| feed := s; alive := alive r; started := started r |}
    | Exited s | Crashed s =>
        {| feed := s; alive := alive r ∖ {[ thread ]}; started := started r |}
    end
  else r.

(** What happens to a feed: calls of its methods, turns of its capture
    threads, cameras plugged in and out. *)
Inductive Call :=
  | CallStart
  | CallStop (joined : bool)
  | CallDisconnect (joined : bool)
  | CallConnect
  | CallCapture (processed : bool)
  | Turn (thread : nat)
  | Plug (index : Z) (device : option Device).

Definition call (c : Call) (r : Runtime) : Runtime :=
  match c with
  | CallStart => snd (call_start_feed r)
  | CallStop joined => call_stop_feed joined r
  | CallDisconnect joined => call_disconnect joined r
  | CallConnect =>
      {| feed := snd (connect (feed r)); alive := alive r; started := started r |}
  | CallCapture processed =>
      {| feed := snd (capture_frame processed (feed r));
         alive := alive r; started := started r |}
  | Turn thread => thread_turn thread r
  | Plug index device =>
      {| feed := {| self := self (feed r);
                    world := {| devices := match device with
                                           | Some d => <[index := d]> (devices (world (feed r)))
                                           | None => delete index (devices (world (feed r)))
                                           end;
                                captures := captures (world (feed r));
                                notified := notified (world (feed r)) |} |};
         alive := alive r; started := started r |}
  end.

Definition calls (cs : list Call) (r : Runtime) : Runtime :=
  foldl (λ r c, call c r) r cs.

(** Every wait for a thread in the calls ends with the thread gone. *)
Definition joins (c : Call) : bool :=
  match c with
  | CallStop joined | CallDisconnect joined => joined
  | _ => true
  end.

(** A feed just made, with no thread. *)
Definition boot (camera_index : Z) (name : string) (w : World) : Runtime :=
  {| feed := {| self := CameraFeed_init camera_index name; world := w |};
     alive := ∅; started := 0 |}.

(** ** [class CameraManager]: detection, removal *)

(** The body of the loop of [detect_cameras] for index [i]; an exception
    anywhere in it is caught and the loop goes on. *)
Definition detect_camera (available : list Z) (i : Z) (w : World)
  : list Z * World :=
  match VideoCapture_new i CAP_AVFOUNDATION w with
  | (Ok cap, w) =>
      if isOpened cap w then
        match cap_set cap CAP_PROP_BUFFERSIZE 1 w with
        | (Ok _, w) =>
            match cap_read cap w with
            | (Ok (ret, frame), w) =>
                let available :=
                  if ret && is_not_None frame then available ++ [i]
                  else available in
                (available, (cap_release cap w).2)
            | (Raise, w) => (available, w)
            end
        | (Raise, w) => (available, w)
        end
      else (available, w)
  | (Raise, w) => (available, w)
  end.

(** [detect_cameras]; [range(max_cameras)] is [seqZ 0 max_cameras]. *)
Definition detect_cameras (self : CameraManager) (max_cameras : Z) (w : World)
  : list Z * CameraManager * World :=
  let '(available, w) :=
    foldl (λ '(available, w) i, detect_camera available i w)
          ([], w) (seqZ 0 max_cameras) in
  (available,
   {| available_cameras := available; camera_feeds := camera_feeds self |},
   w).

(** [remove_feed]. The feed object stays in the store, disconnected: others
    may still hold it. *)
Definition remove_feed (manager : CameraManager) (feed_name : string) (st : Store)
  : CameraManager * Store :=
  match camera_feeds manager !! feed_name with
  | Some address =>
      ({| available_cameras := available_cameras manager;
          camera_feeds := delete feed_name (camera_feeds manager) |},
       match objects st !! address with
       | Some f =>
           let s := snd (disconnect {| self := f; world := outside st |}) in
           {| objects := <[address := self s]> (objects st);
              outside := world s |}
       | None => st
       end)
  | None => (manager, st)
  end.

(** [remove_feed] for each of [names] in turn. *)
Definition remove_feeds (names : list string) (manager : CameraManager)
    (st : Store) : CameraManager * Store :=
  foldl (λ '(manager, st) feed_name, remove_feed manager feed_name st)
        (manager, st) names.

(** [cleanup]: [remove_feed] for every name of the dictionary, taken in the
    order of the map. *)
Definition cleanup (manager : CameraManager) (st : Store)
  : CameraManager * Store :=
  remove_feeds (map_to_list (camera_feeds manager)).*1 manager st.

(** ** The camera panel: which cameras its two feeds get *)

(** [CameraPanel.create_widgets]: the camera indices it passes to
    [create_camera_feed] for ["rgb_feed"] and for ["nir_feed"]. *)
Definition panel_camera_indices (camera_options : list (Z * string)) : Z * Z :=
  (match camera_options with
   | option0 :: _ => option0.1
   | [] => 0
   end,
   match camera_options !! 1%nat with
   | Some option1 => option1.1
   | None => 1
   end).

(** ** Vocabulary of the statements below *)

(** The four requests [connect] makes to a capture it has opened. *)
Definition requested : list (CapProp * Z) :=
  [(CAP_PROP_BUFFERSIZE, 1); (CAP_PROP_FRAME_WIDTH, 1920);
   (CAP_PROP_FRAME_HEIGHT, 1080); (CAP_PROP_FPS, 30)].

(** The calls the capture loop makes to [callbacks] while it publishes
    [frames] one after the other under [settings]: for each frame, one
    call per callback, in the order of subscription. *)
Definition deliveries (settings : ImageProcessor) (callbacks : list Callable)
    (frames : list ndarray) : list (nat * option ndarray) :=
  concat ((λ frame,
             (λ callback, (cb_id callback, process_frame settings (Some frame)))
               <$> callbacks) <$> frames).

(** The state a turn of the loop leaves behind, however it ended. *)
Definition loop_state (l : Loop) : Ctx :=
  match l with Running s | Exited s | Crashed s => s end.

(** The camera at [index] opens and its first read gives a frame. *)
Definition readable (w : World) (index : Z) : bool :=
  match devices w !! index with
  | Some (Present ((true, Some _) :: _)) => true
  | _ => false
  end.

(** The callbacks other than the one with identifier [id], and those with
    that identifier. *)
Definition others (id : nat) (callbacks : list Callable) : list Callable :=
  filter (λ callback, cb_id callback ≠ id) callbacks.


(** Every capture thread alive is the one the feed knows in
    [capture_thread], and the feed is marked active while one is alive. *)
Definition threads_known (r : Runtime) : Prop :=
  ∀ thread, thread ∈ alive r →
    capture_thread (self (feed r)) = Some thread
    ∧ is_active (self (feed r)) = true.

(** The feed [disconnect] leaves, and the world after the release of the
    capture a feed held (if it held one). *)
Definition disconnected (f : CameraFeed) : CameraFeed :=
  set_is_connected false
    (set_camera None (set_is_active false (set_stop_capture true f))).

Definition released (cam : option nat) (w : World) : World :=
  match cam with
  | Some cam => (cap_release cam w).2
  | None => w
  end.

(** The object at [address], which was feed [f], is now disconnected, and
    the capture [f] held is not open. *)
Definition feed_done (f : CameraFeed) (st : Store) (address : nat) : Prop :=
  ∃ f', objects st !! address = Some f'
        ∧ camera f' = None
        ∧ is_connected f' = false
        ∧ is_active f' = false
        ∧ ∀ cam, camera f = Some cam → isOpened cam (outside st) = false.

(** ** Sample inputs *)

(** A full-HD frame: 1920 wide, 1080 high. *)
Definition hd_frame : ndarray := replicate 1080 (replicate 1920 0).

Definition turned_cropped : ImageProcessor :=
  set_crop_region (set_rotation ImageProcessor_init 90) 2000 0 100 100.

(** A camera at index 0 whose frames carry their sequence number. *)
Definition desk : World :=
  {| devices := {[ 0 := Present [(true, Some [[1]]); (true, Some [[2]]);
                                 (true, Some [[3]])] ]};
     captures := ∅; notified := [] |}.

Definition new_feed : Ctx :=
  {| self := CameraFeed_init 0 "Camera 0"; world := desk |}.

(** The feed once [connect] has succeeded. *)
Definition connected_feed : Ctx := snd (connect new_feed).

(** The same feed after its camera has been unplugged. *)
Definition unplugged (s : Ctx) : Ctx :=
  {| self := self s;
     world := {| devices := ∅; captures := captures (world s);
                 notified := notified (world s) |} |}.

(** A camera that opens and never gives a frame. *)
Definition dark_feed : Ctx :=
  {| self := CameraFeed_init 3 "Camera 3";
     world := {| devices := {[ 3 := Present [(false, None); (false, None)] ]};
                 captures := ∅; notified := [] |} |}.

Definition always_raises : Callable :=
  {| cb_id := 1; cb_run := λ _, Raise |}.

Definition well_behaved : Callable :=
  {| cb_id := 2; cb_run := λ _, Ok () |}.

Definition ten_frames : list ndarray := (λ n, [[Z.of_nat n]]) <$> seq 1 10.

Definition streaming_capture : VideoCapture :=
  {| cap_index := 0; cap_opened := true; cap_props := requested;
     cap_pending := (λ frame, (true, Some frame)) <$> ten_frames |}.

(** A connected feed with a failing and a sound subscriber, in that order. *)
Definition streaming_feed : Ctx :=
  {| self := set_frame_callbacks [always_raises; well_behaved]
               (set_is_connected true
                  (set_camera (Some 0%nat) (CameraFeed_init 0 "Camera 0")));
     world := {| devices := ∅; captures := {[ 0%nat := streaming_capture ]};
                 notified := [] |} |}.

(** The connected feed with its capture thread running. *)
Definition capturing : Threads :=
  {| shared := connected_feed; capture_alive := true |}.

(** A manager that has detected one camera, on a host that answers
    neither query. *)
Definition lone_camera : CameraManager :=
  {| available_cameras := [0]; camera_feeds := ∅ |}.

Definition silent_host : Host :=
  {| system_profiler := None; iphone_camera := None |}.

(** A manager whose feed ["rgb_feed"] is the connected feed above, stored
    at address 0. *)
Definition busy_manager : CameraManager :=
  {| available_cameras := [0]; camera_feeds := {[ "rgb_feed" := 0%nat ]} |}.

Definition busy_store : Store :=
  {| objects := {[ 0%nat := self connected_feed ]};
     outside := world connected_feed |}.

(** A feed whose capture loop has ended on its own: started, its camera
    unplugged, a [connect] that failed, the thread gone at its next turn,
    then the camera back and a [connect] that succeeded. *)
Definition stale_feed : Runtime :=
  calls [CallStart; Plug 0 None; CallConnect; Turn 0;
         Plug 0 (Some (Present [(true, Some [[7]])])); CallConnect]
    (boot 0 "Camera 0" desk).

(** A feed that has been started. *)
Definition started_feed : Runtime := snd (call_start_feed (boot 0 "Camera 0" desk)).

(** Cameras at the indices 0, 1 and 3: the first two readable, the third
    one giving no frame. *)
Definition three_cameras : World :=
  {| devices := {[ 0 := Present [(true, Some [[1]])];
                   1 := Present [(true, Some [[5]]); (false, None)];
                   3 := Present [(false, None)] ]};
     captures := ∅; notified := [] |}.

(** * Properties *)

(** ** Shapes of frames through the OpenCV operations *)

Lemma rect_width (h w : nat) (a : ndarray) :
  rect h w a → (0 < h)%nat → length (List.hd [] a) = w.
Proof.
  intros [Hlen Hrows] Hpos. destruct a as [|r a]; simpl in *; [lia|].
  by inversion Hrows.
Qed.

Lemma rect_shape (h w : nat) (a : ndarray) :
  rect h w a → (0 < h)%nat → shape a = (Z.of_nat h, Z.of_nat w).
Proof.
  intros Hrect Hpos. unfold shape, height, width.
  rewrite (rect_width h w a Hrect Hpos). by destruct Hrect as [-> _].
Qed.

Lemma is_raster_rect (a : ndarray) :
  is_raster a = true →
  ∃ h w : nat, (0 < h)%nat ∧ (0 < w)%nat ∧ rect h w a.
Proof.
  unfold is_raster. rewrite !andb_true_iff, !Z.ltb_lt.
  intros [[Hh Hw] Hrows].
  exists (length a), (length (List.hd [] a)).
  unfold height, width in *. repeat split; try lia.
  apply Forall_forall. intros r Hr.
  apply Is_true_true_2, forallb_True in Hrows.
  rewrite Forall_forall in Hrows. specialize (Hrows r Hr).
  apply Is_true_true_1, Z.eqb_eq in Hrows. lia.
Qed.

Lemma rect_reverse (h w : nat) (a : ndarray) :
  rect h w a → rect h w (reverse a).
Proof.
  intros [Hlen Hrows]. split; [by rewrite length_reverse|].
  by apply Forall_reverse.
Qed.

Lemma rect_reverse_rows (h w : nat) (a : ndarray) :
  rect h w a → rect h w (reverse <$> a).
Proof.
  intros [Hlen Hrows]. split; [by rewrite length_fmap|].
  apply Forall_fmap. eapply Forall_impl; [exact Hrows|].
  intros r Hr. simpl. by rewrite length_reverse.
Qed.

Lemma rect_flip (h w : nat) (a : ndarray) (flipCode : Z) :
  rect h w a → rect h w (cv2_flip a flipCode).
Proof.
  intros Hrect. unfold cv2_flip.
  destruct (flipCode =? 0); [by apply rect_reverse|].
  destruct (0 <? flipCode); [by apply rect_reverse_rows|].
  by apply rect_reverse, rect_reverse_rows.
Qed.

Lemma rect_transpose (h w : nat) (a : ndarray) :
  rect h w a → (0 < h)%nat → rect w h (cv2_transpose a).
Proof.
  intros Hrect Hpos. unfold cv2_transpose.
  rewrite (rect_width h w a Hrect Hpos). destruct Hrect as [Hlen _].
  split; [by rewrite length_fmap, length_seq|].
  apply Forall_fmap, Forall_forall. intros j _. simpl.
  by rewrite length_fmap.
Qed.

(** A quarter turn swaps height and width, a half turn keeps them. *)
Lemma rect_rotate_quarter (h w : nat) (a : ndarray) (code : RotateFlags) :
  rect h w a → (0 < h)%nat → code ≠ ROTATE_180 →
  rect w h (cv2_rotate a code).
Proof.
  intros Hrect Hpos Hcode.
  destruct code; [|done|]; simpl; by apply rect_flip, rect_transpose.
Qed.

Lemma rect_rotate_half (h w : nat) (a : ndarray) :
  rect h w a → rect h w (cv2_rotate a ROTATE_180).
Proof. intros Hrect. simpl. by apply rect_flip. Qed.

Lemma rect_apply_flips (self : ImageProcessor) (h w : nat) (a : ndarray) :
  rect h w a → rect h w (apply_flips self a).
Proof.
  intros Hrect. unfold apply_flips.
  destruct (flip_horizontal self), (flip_vertical self); simpl;
    try done; by apply rect_flip.
Qed.

(** The frame the crop is cut from is again a raster: with the dimensions of
    the input, or with the two swapped after a quarter turn. *)
Lemma rect_before_crop (self : ImageProcessor) (h w : nat) (a : ndarray) :
  rect h w a → (0 < h)%nat →
  (rect h w (apply_flips self (apply_rotation self a))
   ∧ rotation_angle self ≠ 90 ∧ rotation_angle self ≠ 270)
  ∨ (rect w h (apply_flips self (apply_rotation self a))
     ∧ (rotation_angle self = 90 ∨ rotation_angle self = 270)).
Proof.
  intros Hrect Hpos. unfold apply_rotation.
  destruct (Z.eqb_spec (rotation_angle self) 90) as [E90|N90].
  { right. split; [|by left].
    by apply rect_apply_flips, rect_rotate_quarter. }
  destruct (Z.eqb_spec (rotation_angle self) 180) as [E180|N180].
  { left. split; [|lia].
    by apply rect_apply_flips, rect_rotate_half. }
  destruct (Z.eqb_spec (rotation_angle self) 270) as [E270|N270].
  { right. split; [|by right].
    by apply rect_apply_flips, rect_rotate_quarter. }
  left. split; [|lia]. by apply rect_apply_flips.
Qed.

Lemma py_slice_inside {A} (lo n : Z) (l : list A) :
  0 ≤ lo → 0 ≤ n → lo + n ≤ Z.of_nat (length l) →
  py_slice lo (lo + n) l = take (Z.to_nat n) (drop (Z.to_nat lo) l)
  ∧ length (py_slice lo (lo + n) l) = Z.to_nat n.
Proof.
  intros Hlo Hn Hfit. unfold py_slice, slice_bound.
  destruct (Z.ltb_spec lo 0); [lia|].
  destruct (Z.ltb_spec (lo + n) 0); [lia|].
  replace (Z.min (lo + n) (Z.of_nat (length l)) - Z.min lo (Z.of_nat (length l)))
    with n by lia.
  replace (Z.min lo (Z.of_nat (length l))) with lo by lia.
  split; [done|]. rewrite length_take, length_drop. lia.
Qed.

Lemma py_slice_Forall {A} (P : A → Prop) (lo hi : Z) (l : list A) :
  Forall P l → Forall P (py_slice lo hi l).
Proof. intros Hl. unfold py_slice. by apply Forall_take, Forall_drop. Qed.

(** A rectangle that lies inside a raster is cut out whole. *)
Lemma rect_slice2 (h w : nat) (a : ndarray) (x y cw ch : Z) :
  rect h w a →
  0 ≤ x → 0 ≤ cw → x + cw ≤ Z.of_nat w →
  0 ≤ y → 0 ≤ ch → y + ch ≤ Z.of_nat h →
  rect (Z.to_nat ch) (Z.to_nat cw) (slice2 y (y + ch) x (x + cw) a).
Proof.
  intros [Hlen Hrows] Hx Hcw Hxw Hy Hch Hyh. unfold slice2. split.
  - rewrite length_fmap. apply py_slice_inside; lia.
  - apply Forall_fmap, py_slice_Forall.
    eapply Forall_impl; [exact Hrows|]. intros r Hr. simpl in *.
    apply py_slice_inside; lia.
Qed.

(** ** The transform pipeline *)

(** C1. The crop is the last stage of [process_frame] and its rectangle is
    clamped against the frame as it is after rotation and flips: [x] into
    [0, width-1], [y] into [0, height-1], [w] and [h] so that
    [x+w <= width] and [y+h <= height], both at least 1; the frame returned
    has exactly the clamped size. For a 1920x1080 input turned by 90
    degrees the crop is evaluated on a 1080x1920 frame, and the request
    (2000, 0, 100, 100) becomes x = 1079, w = 1. *)
Theorem process_frame_crop_clamped
    (self : ImageProcessor) (frame : ndarray) (x y w h : Z) :
  is_raster frame = true →
  crop_region self = Some (x, y, w, h) →
  let turned := apply_flips self (apply_rotation self (copy frame)) in
  ∃ x' y' w' h',
    clamp_crop (x, y, w, h) turned = (x', y', w', h')
    ∧ process_frame self (Some frame)
      = Some (slice2 y' (y' + h') x' (x' + w') turned)
    ∧ shape (slice2 y' (y' + h') x' (x' + w') turned) = (h', w')
    ∧ x' = Z.max 0 (Z.min x (width turned - 1))
    ∧ y' = Z.max 0 (Z.min y (height turned - 1))
    ∧ w' = Z.max 1 (Z.min w (width turned - x'))
    ∧ h' = Z.max 1 (Z.min h (height turned - y'))
    ∧ 0 ≤ x' ≤ width turned - 1
    ∧ 0 ≤ y' ≤ height turned - 1
    ∧ 1 ≤ w' ∧ x' + w' ≤ width turned
    ∧ 1 ≤ h' ∧ y' + h' ≤ height turned
    ∧ (shape frame = (1080, 1920) → rotation_angle self = 90 →
       (x, y, w, h) = (2000, 0, 100, 100) →
       shape turned = (1920, 1080) ∧ (x', y', w', h') = (1079, 0, 1, 100)).
Proof.
  intros Hraster Hcrop turned.
  destruct (is_raster_rect frame Hraster) as (fh & fw & Hfh & Hfw & Hrect).
  assert (∃ th tw : nat, (0 < th)%nat ∧ (0 < tw)%nat ∧ rect th tw turned
            ∧ (rotation_angle self = 90 → th = fw ∧ tw = fh))
    as (th & tw & Hth & Htw & Hturned & Hquarter).
  { destruct (rect_before_crop self fh fw (copy frame) Hrect Hfh)
      as [(Hr & N90 & _)|(Hr & _)].
    - exists fh, fw. split; [done|]. split; [done|]. split; [exact Hr|].
      intros H90. by destruct N90.
    - exists fw, fh. by split; [|split; [|split]]. }
  pose proof (rect_shape th tw turned Hturned Hth) as Hshape.
  assert (height turned = Z.of_nat th ∧ width turned = Z.of_nat tw)
    as [Hheight Hwidth] by (unfold shape in Hshape; by inversion Hshape).
  set (x' := Z.max 0 (Z.min x (width turned - 1))).
  set (y' := Z.max 0 (Z.min y (height turned - 1))).
  set (w' := Z.max 1 (Z.min w (width turned - x'))).
  set (h' := Z.max 1 (Z.min h (height turned - y'))).
  assert (clamp_crop (x, y, w, h) turned = (x', y', w', h')) as Hclamp.
  { unfold clamp_crop. rewrite Hshape.
    subst x' y' w' h'. by rewrite Hheight, Hwidth. }
  exists x', y', w', h'.
  split; [done|]. split.
  { unfold process_frame, apply_crop. fold turned.
    by rewrite Hcrop, Hclamp. }
  split.
  { assert (rect (Z.to_nat h') (Z.to_nat w')
              (slice2 y' (y' + h') x' (x' + w') turned)) as Hcut
      by (apply (rect_slice2 th tw); [done|lia..]).
    rewrite (rect_shape _ _ _ Hcut) by lia. f_equal; lia. }
  repeat (split; [lia|]).
  intros Hframe H90 Hreq.
  rewrite (rect_shape fh fw frame Hrect Hfh) in Hframe.
  destruct (Hquarter H90) as [-> ->].
  inversion Hframe. inversion Hreq. subst x y w h.
  split; [rewrite Hshape; f_equal; lia|].
  repeat f_equal; lia.
Qed.

Lemma process_frame_crop_clamped_witness :
  clamp_crop (2000, 0, 100, 100)
    (apply_flips turned_cropped (apply_rotation turned_cropped (copy hd_frame)))
  = (1079, 0, 1, 100).
Proof.
  destruct (process_frame_crop_clamped turned_cropped hd_frame 2000 0 100 100)
    as (x' & y' & w' & h' & Hclamp & _ & _ & _ & _ & _ & _ & _ & _ & _ & _
        & _ & _ & Hcase).
  - vm_compute. reflexivity.
  - reflexivity.
  - destruct Hcase as [_ Hvalues];
      [vm_compute; reflexivity|reflexivity..|].
    rewrite Hclamp. exact Hvalues.
Defined.

(** C2, as the specification states it, fails: [set_rotation] reduces the
    angle modulo 360, not to a multiple of 90, so 45 is stored as 45. *)
Lemma set_rotation_45_not_quarter_turn :
  rotation_angle (set_rotation ImageProcessor_init 45) = 45
  ∧ ¬ rotation_angle (set_rotation ImageProcessor_init 45) ∈ [0; 90; 180; 270].
Proof.
  split; [reflexivity|]. simpl.
  rewrite !elem_of_cons, elem_of_nil. vm_compute. intros H.
  repeat (destruct H as [H|H]; [discriminate H|]). exact H.
Qed.

(** C2, amended. For every integer angle, [set_rotation] stores the angle
    modulo 360, a value from 0 to 359; the stored angle is one of 0, 90,
    180, 270 exactly when the angle given is a multiple of 90. The other
    settings are left as they were. *)
Theorem set_rotation_modulo_360 (self : ImageProcessor) (angle : Z) :
  let stored := rotation_angle (set_rotation self angle) in
  stored = angle `mod` 360
  ∧ 0 ≤ stored < 360
  ∧ (stored ∈ [0; 90; 180; 270] ↔ angle `mod` 90 = 0)
  ∧ flip_horizontal (set_rotation self angle) = flip_horizontal self
  ∧ flip_vertical (set_rotation self angle) = flip_vertical self
  ∧ crop_region (set_rotation self angle) = crop_region self.
Proof.
  simpl. split; [done|]. split; [apply Z.mod_pos_bound; lia|].
  split; [|done].
  rewrite !elem_of_cons, elem_of_nil.
  pose proof (Z.mod_pos_bound angle 360 ltac:(lia)) as Hbound.
  pose proof (Z.div_mod angle 360 ltac:(lia)) as H360.
  pose proof (Z.div_mod angle 90 ltac:(lia)) as H90.
  pose proof (Z.mod_pos_bound angle 90 ltac:(lia)) as Hbound90.
  split.
  - intros Hin. lia.
  - intros Hmul. lia.
Qed.

(** C8. With the settings [reset] leaves (no rotation, no flip, no crop)
    [process_frame] returns any frame it is given with its content
    unchanged. *)
Theorem process_frame_default_identity (self : ImageProcessor) (frame : ndarray) :
  process_frame (reset self) (Some frame) = Some frame
  ∧ process_frame ImageProcessor_init (Some frame) = Some frame.
Proof. split; reflexivity. Qed.

(** C9. When the stored angle is none of 90, 180, 270 the rotation stage
    leaves the frame as it is, and [process_frame] is flips and crop alone.
    This is the case of the angle 45 that [set_rotation 45] stores. *)
Theorem odd_angle_not_rotated (self : ImageProcessor) (frame : ndarray) :
  rotation_angle self ≠ 90 →
  rotation_angle self ≠ 180 →
  rotation_angle self ≠ 270 →
  apply_rotation self frame = frame
  ∧ process_frame self (Some frame)
    = Some (apply_crop self (apply_flips self frame)).
Proof.
  intros N90 N180 N270.
  assert (apply_rotation self frame = frame) as Hsame.
  { unfold apply_rotation.
    destruct (Z.eqb_spec (rotation_angle self) 90); [done|].
    destruct (Z.eqb_spec (rotation_angle self) 180); [done|].
    by destruct (Z.eqb_spec (rotation_angle self) 270). }
  split; [exact Hsame|].
  unfold process_frame, copy. by rewrite Hsame.
Qed.

Lemma odd_angle_not_rotated_witness :
  rotation_angle (set_rotation ImageProcessor_init 45) = 45
  ∧ apply_rotation (set_rotation ImageProcessor_init 45) [[1; 2; 3]; [4; 5; 6]]
    = [[1; 2; 3]; [4; 5; 6]].
Proof.
  split; [reflexivity|].
  apply (odd_angle_not_rotated (set_rotation ImageProcessor_init 45)
           [[1; 2; 3]; [4; 5; 6]]); vm_compute; discriminate.
Defined.

(** ** The camera feed: [connect] *)

(** Runs a method on a state whose capture table is known where it is
    looked up. *)
Ltac run_method :=
  repeat (progress
    (cbv [mbind method_bind mret method_ret try_except get assign cv2 raise
          VideoCapture_new isOpened cap_set cap_read cap_release with_captures];
     cbn [world self captures devices notified
          cap_opened cap_pending cap_props cap_index andb is_not_None app];
     rewrite ?lookup_insert_eq, ?alter_insert_eq, ?insert_insert_eq)).

(** [connect] on a device that opens: it succeeds when the first read
    gives a frame; otherwise the capture it has just opened is released. *)
Lemma connect_present (s : Ctx) (frames : list (bool * option ndarray)) :
  devices (world s) !! camera_index (self s) = Some (Present frames) →
  let h := fresh (dom (captures (world s))) in
  connect s =
    match frames with
    | (true, Some frame) :: rest =>
        (Ok true,
         {| self := set_is_connected true (set_camera (Some h) (self s));
            world := with_captures (world s)
              (<[h := {| cap_index := camera_index (self s); cap_opened := true;
                         cap_props := requested; cap_pending := rest |}]>
                 (captures (world s))) |})
    | _ =>
        (Ok false,
         {| self := set_is_connected false (set_camera None (self s));
            world := with_captures (world s)
              (<[h := {| cap_index := camera_index (self s); cap_opened := false;
                         cap_props := requested; cap_pending := tail frames |}]>
                 (captures (world s))) |})
    end.
Proof.
  intros Hdev h. subst h. unfold connect.
  run_method. rewrite Hdev. run_method.
  destruct frames as [|[[] [frame|]] rest]; run_method; reflexivity.
Qed.

(** [connect] on an index with no device behind it. *)
Lemma connect_absent (s : Ctx) :
  devices (world s) !! camera_index (self s) = None →
  let h := fresh (dom (captures (world s))) in
  connect s =
    (Ok false,
     {| self := set_is_connected false (set_camera None (self s));
        world := with_captures (world s)
          (<[h := {| cap_index := camera_index (self s); cap_opened := false;
                     cap_props := []; cap_pending := [] |}]>
             (captures (world s))) |}).
Proof.
  intros Hdev h. subst h. unfold connect.
  run_method. rewrite Hdev. run_method. reflexivity.
Qed.

(** [connect] on a device whose backend raises. *)
Lemma connect_faulty (s : Ctx) :
  devices (world s) !! camera_index (self s) = Some Faulty →
  connect s =
    (Ok false,
     {| self := set_is_connected false (set_camera None (self s));
        world := world s |}).
Proof.
  intros Hdev. unfold connect.
  run_method. rewrite Hdev. run_method. reflexivity.
Qed.

Lemma isOpened_known (h : nat) (w : World) :
  isOpened h w = true → h ∈ dom (captures w).
Proof.
  unfold isOpened. intros Hopen. apply elem_of_dom.
  destruct (captures w !! h); [by eexists|discriminate].
Qed.

Lemma fresh_capture_new (h : nat) (w : World) :
  h ∈ dom (captures w) → fresh (dom (captures w)) ≠ h.
Proof. intros Hin Heq. subst h. by apply (is_fresh (dom (captures w))). Qed.

(** C3, as the specification states it, fails: a connected feed that calls
    [connect] again opens its device a second time. With the camera still
    there the feed gets a new capture (handle 1 in place of handle 0); with
    the camera unplugged the call returns [False] and leaves the feed
    disconnected, without a capture. *)
Lemma connect_again_reopens :
  fst (connect new_feed) = Ok true
  ∧ is_connected (self connected_feed) = true
  ∧ camera (self connected_feed) = Some 0%nat
  ∧ fst (connect connected_feed) = Ok true
  ∧ camera (self (snd (connect connected_feed))) = Some 1%nat
  ∧ fst (connect (unplugged connected_feed)) = Ok false
  ∧ camera (self (snd (connect (unplugged connected_feed)))) = None
  ∧ is_connected (self (snd (connect (unplugged connected_feed)))) = false.
Proof. repeat split; vm_compute; reflexivity. Qed.

(** C3, amended. For every feed in the connected state, [connect] opens the
    device again, on a new capture. It returns [True] exactly when the
    device opens and its first read gives a frame; the feed then holds the
    new capture, not the one it held, and stays connected. Otherwise it
    returns [False] and the feed holds no capture and is disconnected. *)
Theorem connect_when_connected_reopens (s : Ctx) (h : nat) :
  is_connected (self s) = true →
  camera (self s) = Some h →
  isOpened h (world s) = true →
  let h' := fresh (dom (captures (world s))) in
  ∃ r s',
    connect s = (Ok r, s')
    ∧ h' ≠ h
    ∧ (r = true ↔
       ∃ frame rest, devices (world s) !! camera_index (self s)
                     = Some (Present ((true, Some frame) :: rest)))
    ∧ (if r then camera (self s') = Some h'
                 ∧ is_connected (self s') = true
                 ∧ isOpened h' (world s') = true
       else camera (self s') = None ∧ is_connected (self s') = false).
Proof.
  intros Hconn Hcam Hopen h'.
  assert (h' ≠ h) as Hnew by by apply fresh_capture_new, isOpened_known.
  destruct (devices (world s) !! camera_index (self s)) as [[|frames]|] eqn:Hdev.
  - exists false, (snd (connect s)). rewrite (connect_faulty s Hdev). simpl.
    split; [done|]. split; [done|].
    split; [|done]. split; [done|]. by intros (? & ? & ?).
  - pose proof (connect_present s frames Hdev) as Hrun. fold h' in Hrun.
    destruct frames as [|[[] [frame|]] rest]; rewrite Hrun; simpl.
    2: { exists true. eexists. split; [done|]. split; [done|]. simpl.
         split; [split; [by eauto|done]|].
         repeat split. unfold isOpened. simpl. by rewrite lookup_insert_eq. }
    all: exists false; eexists; split; [done|]; split; [done|]; simpl;
      (split; [|done]); (split; [done|]); by intros (? & ? & ?).
  - exists false, (snd (connect s)). rewrite (connect_absent s Hdev). simpl.
    split; [done|]. split; [done|].
    split; [|done]. split; [done|]. by intros (? & ? & ?).
Qed.

Lemma connect_when_connected_reopens_witness :
  ∃ s', connect connected_feed = (Ok true, s')
        ∧ camera (self s') = Some 1%nat
        ∧ is_connected (self s') = true.
Proof.
  destruct (connect_when_connected_reopens connected_feed 0)
    as (r & s' & Hrun & _ & Hiff & Hstate); [vm_compute; reflexivity..|].
  assert (r = true) as ->.
  { apply Hiff. exists [[1]], [(true, Some [[2]]); (true, Some [[3]])].
    vm_compute. reflexivity. }
  destruct Hstate as (Hcam & Hconn & _).
  exists s'. split; [exact Hrun|]. split; [|exact Hconn].
  rewrite Hcam. vm_compute. reflexivity.
Defined.

(** C6. When the device opens but the read that probes it gives no frame,
    [connect] returns [False], the capture it opened has been released (it
    is in the world, closed), the feed holds no capture and is
    disconnected, and no capture is open that was not open before. *)
Theorem connect_unreadable_device_fails
    (s : Ctx) (frames : list (bool * option ndarray)) :
  devices (world s) !! camera_index (self s) = Some (Present frames) →
  (∀ ret frame, head frames = Some (ret, frame) →
                ret && is_not_None frame = false) →
  let h := fresh (dom (captures (world s))) in
  ∃ s',
    connect s = (Ok false, s')
    ∧ camera (self s') = None
    ∧ is_connected (self s') = false
    ∧ (h ∉ dom (captures (world s)))
    ∧ captures (world s') !! h
      = Some {| cap_index := camera_index (self s); cap_opened := false;
                cap_props := requested; cap_pending := tail frames |}
    ∧ isOpened h (world s') = false
    ∧ (∀ k, isOpened k (world s') = true → isOpened k (world s) = true).
Proof.
  intros Hdev Hprobe h.
  pose proof (connect_present s frames Hdev) as Hrun. fold h in Hrun.
  assert (connect s =
    (Ok false,
     {| self := set_is_connected false (set_camera None (self s));
        world := with_captures (world s)
          (<[h := {| cap_index := camera_index (self s); cap_opened := false;
                     cap_props := requested; cap_pending := tail frames |}]>
             (captures (world s))) |})) as ->.
  { rewrite Hrun. destruct frames as [|[[] [frame|]] rest]; try done.
    by specialize (Hprobe true (Some frame) eq_refl). }
  eexists. split; [done|]. simpl.
  split; [done|]. split; [done|].
  split; [apply is_fresh|].
  split; [by rewrite lookup_insert_eq|].
  split; [unfold isOpened; simpl; by rewrite lookup_insert_eq|].
  intros k. unfold isOpened. simpl.
  destruct (decide (k = h)) as [->|Hk].
  - by rewrite lookup_insert_eq.
  - by rewrite lookup_insert_ne.
Qed.

Lemma connect_unreadable_device_fails_witness :
  ∃ s', connect dark_feed = (Ok false, s')
        ∧ camera (self s') = None
        ∧ is_connected (self s') = false
        ∧ isOpened (fresh (dom (captures (world dark_feed)))) (world s') = false.
Proof.
  destruct (connect_unreadable_device_fails dark_feed [(false, None); (false, None)])
    as (s' & Hrun & Hcam & Hconn & _ & _ & Hclosed & _).
  - vm_compute. reflexivity.
  - intros ret frame Hhead. injection Hhead as <- <-. reflexivity.
  - exists s'. split; [exact Hrun|]. split; [exact Hcam|].
    split; [exact Hconn|exact Hclosed].
Defined.

(** ** The capture loop and its subscribers *)

(** The loop over the callbacks calls every one of them with the processed
    frame and never raises, whatever the callbacks do. *)
Lemma for_callbacks_all_called (callbacks : list Callable) (s : Ctx) :
  for_callbacks callbacks s =
    (Ok (),
     {| self := self s;
        world := {| devices := devices (world s);
                    captures := captures (world s);
                    notified := notified (world s)
                      ++ ((λ callback, (cb_id callback, processed_frame (self s)))
                            <$> callbacks) |} |}).
Proof.
  revert s. induction callbacks as [|callback rest IH]; intros s.
  - simpl. rewrite app_nil_r. by destruct s as [f []].
  - cbn [for_callbacks]. cbv [mbind method_bind try_except call_callback mret method_ret].
    destruct (cb_run callback (processed_frame (self s)));
      rewrite IH; cbn [self world devices captures notified];
      by rewrite fmap_cons, <- app_assoc.
Qed.

(** One turn of the loop when the camera gives a frame: the pair of frames
    is replaced and every subscriber is called. *)
Lemma loop_turn_frame (s : Ctx) (cam : nat) (c : VideoCapture)
    (frame : ndarray) (rest : list (bool * option ndarray)) :
  stop_capture (self s) = false →
  camera (self s) = Some cam →
  captures (world s) !! cam = Some c →
  cap_opened c = true →
  cap_pending c = (true, Some frame) :: rest →
  loop_turn s =
    Running
      {| self := set_processed_frame
                   (process_frame (processor (self s)) (Some frame))
                   (set_current_frame (Some (copy frame)) (self s));
         world := {| devices := devices (world s);
                     captures := <[cam := {| cap_index := cap_index c;
                                             cap_opened := true;
                                             cap_props := cap_props c;
                                             cap_pending := rest |}]>
                                   (captures (world s));
                     notified := notified (world s)
                       ++ ((λ callback,
                              (cb_id callback,
                               process_frame (processor (self s)) (Some frame)))
                             <$> frame_callbacks (self s)) |} |}.
Proof.
  intros Hstop Hcam Hcap Hopen Hpending.
  unfold loop_turn, loop_condition, isOpened.
  rewrite Hstop, Hcam, Hcap, Hopen. simpl.
  unfold loop_body.
  cbv [mbind method_bind mret method_ret get assign cv2 cap_read with_captures].
  rewrite Hcam. cbn [world self]. rewrite Hcap, Hopen, Hpending.
  cbn [world self]. rewrite for_callbacks_all_called. reflexivity.
Qed.

(** As long as the camera gives frames, the loop keeps turning and every
    subscriber gets every frame. *)
Lemma capture_loop_delivers (frames : list ndarray) :
  ∀ (s : Ctx) (cam : nat) (c : VideoCapture) (rest : list (bool * option ndarray)),
    stop_capture (self s) = false →
    camera (self s) = Some cam →
    captures (world s) !! cam = Some c →
    cap_opened c = true →
    cap_pending c = ((λ frame, (true, Some frame)) <$> frames) ++ rest →
    ∃ s',
      _capture_loop (length frames) s = Running s'
      ∧ notified (world s')
        = notified (world s)
          ++ deliveries (processor (self s)) (frame_callbacks (self s)) frames
      ∧ frame_callbacks (self s') = frame_callbacks (self s)
      ∧ processor (self s') = processor (self s)
      ∧ stop_capture (self s') = false
      ∧ camera (self s') = Some cam
      ∧ isOpened cam (world s') = true.
Proof.
  induction frames as [|frame frames IH]; intros s cam c rest Hstop Hcam Hcap Hopen Hpending.
  - exists s. simpl. unfold deliveries. simpl. rewrite app_nil_r.
    repeat split; try done. unfold isOpened. by rewrite Hcap.
  - simpl in Hpending. cbn [length _capture_loop].
    rewrite (loop_turn_frame s cam c frame
               (((λ frame, (true, Some frame)) <$> frames) ++ rest))
      by done.
    edestruct IH as (s' & Hloop & Hnotified & Hcbs & Hproc & Hstop' & Hcam' & Hopen');
      [..|exists s'; split; [exact Hloop|]].
    + exact Hstop.
    + exact Hcam.
    + cbn [world captures]. apply lookup_insert_eq.
    + reflexivity.
    + reflexivity.
    + cbn [self world notified frame_callbacks processor set_processed_frame
              set_current_frame] in *.
      split; [|done].
      rewrite Hnotified, <- app_assoc. reflexivity.
Qed.

(** C4. With a subscriber that raises at every call somewhere in the list
    of callbacks, the loop still runs one turn per frame the camera gives
    (ten or any other number), calls every subscriber, those subscribed
    after the failing one included, with every processed frame, in the
    order of subscription, and is still running afterwards. *)
Theorem failing_callback_does_not_stop_delivery
    (s : Ctx) (cam : nat) (c : VideoCapture) (frames : list ndarray)
    (rest : list (bool * option ndarray))
    (before after : list Callable) (bad : Callable) :
  (∀ frame, cb_run bad frame = Raise) →
  frame_callbacks (self s) = before ++ bad :: after →
  stop_capture (self s) = false →
  camera (self s) = Some cam →
  captures (world s) !! cam = Some c →
  cap_opened c = true →
  cap_pending c = ((λ frame, (true, Some frame)) <$> frames) ++ rest →
  ∃ s',
    _capture_loop (length frames) s = Running s'
    ∧ notified (world s')
      = notified (world s)
        ++ deliveries (processor (self s)) (before ++ bad :: after) frames
    ∧ loop_condition s' = true
    ∧ frame_callbacks (self s') = before ++ bad :: after.
Proof.
  intros _ Hcbs Hstop Hcam Hcap Hopen Hpending.
  destruct (capture_loop_delivers frames s cam c rest Hstop Hcam Hcap Hopen Hpending)
    as (s' & Hloop & Hnotified & Hcbs' & _ & Hstop' & Hcam' & Hopen').
  exists s'. rewrite <- Hcbs. split; [exact Hloop|]. split; [exact Hnotified|].
  split; [|exact Hcbs'].
  unfold loop_condition. by rewrite Hstop', Hcam', Hopen'.
Qed.

Lemma failing_callback_does_not_stop_delivery_witness :
  ∃ s', _capture_loop 10 streaming_feed = Running s'
        ∧ filter (λ call, call.1 = cb_id well_behaved) (notified (world s'))
          = (λ frame, (cb_id well_behaved, Some frame)) <$> ten_frames.
Proof.
  destruct (failing_callback_does_not_stop_delivery
              streaming_feed 0 streaming_capture ten_frames []
              [] [well_behaved] always_raises)
    as (s' & Hloop & Hnotified & _); try reflexivity.
  exists s'. split; [exact Hloop|].
  rewrite Hnotified. vm_compute. reflexivity.
Defined.

(** ** The pair of frames under concurrent reads *)

(** A frame of one pixel comes out of the pipeline as it went in, whatever
    the settings. *)
Lemma process_frame_one_pixel (settings : ImageProcessor) (v : pixel) :
  process_frame settings (Some [[v]]) = Some [[v]].
Proof.
  unfold process_frame, copy. f_equal.
  assert (apply_rotation settings [[v]] = [[v]]) as ->.
  { unfold apply_rotation.
    destruct (rotation_angle settings =? 90); [reflexivity|].
    destruct (rotation_angle settings =? 180); [reflexivity|].
    by destruct (rotation_angle settings =? 270). }
  assert (apply_flips settings [[v]] = [[v]]) as ->.
  { unfold apply_flips.
    by destruct (flip_horizontal settings), (flip_vertical settings). }
  unfold apply_crop.
  destruct (crop_region settings) as [[[[x y] w] h]|]; [|done].
  assert (clamp_crop (x, y, w, h) [[v]] = (0, 0, 1, 1)) as ->.
  { unfold clamp_crop, shape.
    change (height [[v]]) with 1. change (width [[v]]) with 1.
    repeat f_equal; lia. }
  reflexivity.
Qed.

(** C7, as the specification states it, fails: [get_current_frame] hands
    out one frame per call, so a consumer that wants both frames calls it
    twice, and the capture thread may publish in between. Here the raw
    frame read is the one numbered 2 and the processed frame read next is
    the one numbered 3, which no setting of the pipeline makes out of
    frame 2. *)
Lemma consumer_sees_two_captures :
  snd (run [CaptureTurn; Consumer false; CaptureTurn; Consumer true] capturing)
  = [(false, Some [[2]]); (true, Some [[3]])]
  ∧ ¬ same_capture (Some [[2]]) (Some [[3]]).
Proof.
  split; [vm_compute; reflexivity|].
  intros [settings Hmade]. rewrite process_frame_one_pixel in Hmade.
  discriminate Hmade.
Qed.

(** A read of the camera never raises. *)
Lemma cap_read_returns (cam : nat) (w : World) :
  ∃ ret frame w', cap_read cam w = (Ok (ret, frame), w').
Proof.
  unfold cap_read. destruct (captures w !! cam) as [c|]; [|by eauto].
  destruct (cap_opened c); [|by eauto].
  destruct (cap_pending c) as [|[ret frame] rest]; by eauto.
Qed.

(** A turn of the loop, however it ends, leaves a pair of frames made in
    one capture. *)
Lemma loop_turn_same_capture (s : Ctx) :
  same_capture (current_frame (self s)) (processed_frame (self s)) →
  same_capture (current_frame (self (loop_state (loop_turn s))))
               (processed_frame (self (loop_state (loop_turn s)))).
Proof.
  intros Hpair. unfold loop_turn.
  destruct (loop_condition s); [|exact Hpair].
  unfold loop_body. cbv [mbind method_bind get cv2 raise].
  destruct (camera (self s)) as [cam|]; [|exact Hpair].
  destruct (cap_read_returns cam (world s)) as (ret & frame & w' & ->).
  destruct ret; [|exact Hpair].
  destruct frame as [frame|]; [|exact Hpair].
  cbv [assign mret method_ret]. cbn [self world].
  rewrite for_callbacks_all_called. cbn.
  by exists (processor (self s)).
Qed.

Lemma act_same_capture (a : Action) (t : Threads) :
  same_capture (current_frame (self (shared t)))
               (processed_frame (self (shared t))) →
  same_capture (current_frame (self (shared (fst (act a t)))))
               (processed_frame (self (shared (fst (act a t))))).
Proof.
  intros Hpair. destruct a as [|processed|change]; simpl; [|done..].
  destruct (capture_alive t); [|done].
  pose proof (loop_turn_same_capture (shared t) Hpair) as Hturn.
  by destruct (loop_turn (shared t)).
Qed.

Lemma run_same_capture (schedule : list Action) (t : Threads) :
  same_capture (current_frame (self (shared t)))
               (processed_frame (self (shared t))) →
  same_capture (current_frame (self (shared (fst (run schedule t)))))
               (processed_frame (self (shared (fst (run schedule t))))).
Proof.
  revert t. induction schedule as [|a schedule IH]; intros t Hpair; [done|].
  simpl. pose proof (act_same_capture a t Hpair) as Hact.
  destruct (act a t) as [t1 seen1]. specialize (IH t1 Hact).
  by destruct (run schedule t1) as [t2 seen2].
Qed.

(** Changes of settings hand out no frame and leave the stored pair alone. *)
Lemma run_settings_only (quiet : list Action) (t : Threads) :
  forallb is_settings quiet = true →
  snd (run quiet t) = []
  ∧ current_frame (self (shared (fst (run quiet t))))
    = current_frame (self (shared t))
  ∧ processed_frame (self (shared (fst (run quiet t))))
    = processed_frame (self (shared t)).
Proof.
  revert t. induction quiet as [|a quiet IH]; intros t Hquiet; [done|].
  simpl in Hquiet. apply andb_true_iff in Hquiet as [Ha Hquiet].
  destruct a as [|processed|change]; try discriminate Ha.
  simpl.
  match goal with |- context [run quiet ?t1] =>
    destruct (IH t1 Hquiet) as (Hseen & Hraw & Hproc);
    destruct (run quiet t1) as [t2 seen2] end.
  simpl in *. by rewrite Hseen, Hraw, Hproc.
Qed.

(** C7, amended. Whatever the threads have done (turns of the capture
    loop, reads, and changes of settings between the turns), the pair of
    frames the feed stores comes from one capture, and each call of
    [get_current_frame] returns a copy of the member of that pair it is
    asked for. A consumer that reads the raw and then the processed frame
    (or the other way round) gets a pair from one capture when no turn of
    the capture loop runs between its two calls. *)
Theorem stored_pair_from_one_capture
    (schedule quiet : list Action) (t : Threads) :
  same_capture (current_frame (self (shared t)))
               (processed_frame (self (shared t))) →
  forallb is_settings quiet = true →
  let t1 := fst (run schedule t) in
  let raw := current_frame (self (shared t1)) in
  let processed := processed_frame (self (shared t1)) in
  same_capture raw processed
  ∧ snd (act (Consumer false) t1) = [(false, raw)]
  ∧ snd (act (Consumer true) t1) = [(true, processed)]
  ∧ snd (run (Consumer false :: quiet ++ [Consumer true]) t1)
    = [(false, raw); (true, processed)]
  ∧ snd (run (Consumer true :: quiet ++ [Consumer false]) t1)
    = [(true, processed); (false, raw)].
Proof.
  intros Hpair Hquiet t1 raw processed.
  assert (∀ wanted, get_current_frame (self (shared t1)) wanted
                    = if wanted then processed else raw) as Hget.
  { intros []; unfold get_current_frame, copy; subst raw processed.
    - by destruct (processed_frame (self (shared t1))).
    - by destruct (current_frame (self (shared t1))). }
  assert (∀ first second t0,
            snd (run (Consumer first :: quiet ++ [Consumer second]) t0)
            = [(first, get_current_frame (self (shared t0)) first);
               (second, get_current_frame (self (shared t0)) second)]) as Htwo.
  { intros first second t0. cbn [run act].
    assert (∀ t', snd (run (quiet ++ [Consumer second]) t')
                  = [(second, get_current_frame (self (shared t')) second)]) as Hrest.
    { clear -Hquiet. induction quiet as [|a quiet' IH]; intros t'; [done|].
      simpl in Hquiet. apply andb_true_iff in Hquiet as [Ha Hquiet].
      destruct a as [|p|change]; try discriminate Ha.
      cbn [app run act]. specialize (IH Hquiet).
      match goal with |- context [run (quiet' ++ _) ?t1] =>
        specialize (IH t1); destruct (run (quiet' ++ [Consumer second]) t1) end.
      simpl in *. rewrite IH. unfold get_current_frame. by destruct second. }
    specialize (Hrest t0).
    destruct (run (quiet ++ [Consumer second]) t0). simpl in *. by rewrite Hrest. }
  split; [by apply run_same_capture|].
  split; [cbn [act snd]; by rewrite Hget|].
  split; [cbn [act snd]; by rewrite Hget|].
  split; by rewrite Htwo, !Hget.
Qed.

Lemma stored_pair_from_one_capture_witness :
  same_capture
    (current_frame (self (shared (fst (run [CaptureTurn; CaptureTurn] capturing)))))
    (processed_frame (self (shared (fst (run [CaptureTurn; CaptureTurn] capturing)))))
  ∧ snd (run (Consumer false :: [Settings rotate_clockwise] ++ [Consumer true])
             (fst (run [CaptureTurn; CaptureTurn] capturing)))
    = [(false, Some [[3]]); (true, Some [[3]])].
Proof.
  destruct (stored_pair_from_one_capture
              [CaptureTurn; CaptureTurn] [Settings rotate_clockwise] capturing)
    as (Hpair & _ & _ & Hread & _).
  - exists ImageProcessor_init. vm_compute. reflexivity.
  - reflexivity.
  - split; [exact Hpair|]. rewrite Hread. vm_compute. reflexivity.
Defined.

(** ** The camera registry *)

Lemma filter_agree {A} (P Q : A → Prop)
    `{!∀ x, Decision (P x), !∀ x, Decision (Q x)} (l : list A) :
  (∀ x, x ∈ l → P x ↔ Q x) → filter P l = filter Q l.
Proof.
  induction l as [|a l IH]; intros Hagree; [done|].
  assert (filter P l = filter Q l) as Htail.
  { apply IH. intros x Hx. apply Hagree. by right. }
  destruct (decide (P a)) as [HP|HP].
  - rewrite !filter_cons_True, Htail; [done|..|done].
    apply Hagree; [by left|done].
  - rewrite !filter_cons_False, Htail; [done|..|done].
    intros HQ. apply HP, Hagree; [by left|done].
Qed.

(** The last loop of [get_available_camera_options]: every index of the
    list that is not yet among the options gets an entry, in order. *)
Lemma try_options_appended (indices : list Z) :
  NoDup indices →
  ∀ options : list (Z * string),
    foldl (λ options idx,
             if bool_decide (idx ∉ options.*1)
             then options ++ [try_option idx]
             else options)
          options indices
    = options ++ (try_option <$> filter (λ idx, idx ∉ options.*1) indices).
Proof.
  induction indices as [|idx indices IH]; intros Hnodup options.
  - simpl. by rewrite app_nil_r.
  - apply NoDup_cons in Hnodup as [Hidx Hnodup]. cbn [foldl].
    case_bool_decide as Hnew.
    + rewrite (IH Hnodup), filter_cons_True by done.
      rewrite fmap_cons, <- app_assoc. simpl. do 3 f_equal.
      apply filter_agree. intros x Hx.
      rewrite fmap_app, not_elem_of_app. simpl.
      rewrite not_elem_of_cons. split; [by intros [? _]|].
      intros Hx'. split; [done|]. split; [|apply not_elem_of_nil].
      intros ->. by apply Hidx.
    + rewrite (IH Hnodup). rewrite filter_cons_False; [done|].
      intros Habsent. by apply Habsent.
Qed.

(** C5, as the specification states it, fails: with one camera detected
    and no iPhone found, four more entries follow the detected one. *)
Lemma options_with_four_guesses :
  get_available_camera_options lone_camera silent_host
  = [(0, "Camera 0");
     (2, "Try Camera 2 (Possible iPhone)");
     (3, "Try Camera 3 (Possible iPhone)");
     (4, "Try Camera 4 (Possible iPhone)");
     (5, "Try Camera 5 (Possible iPhone)")]
  ∧ ¬ ∃ extra : list (Z * string),
        (length extra ≤ 1)%nat
        ∧ get_available_camera_options lone_camera silent_host
          = (detected_option (get_camera_names lone_camera silent_host)
               <$> available_cameras lone_camera) ++ extra.
Proof.
  assert (get_available_camera_options lone_camera silent_host
          = [(0, "Camera 0");
             (2, "Try Camera 2 (Possible iPhone)");
             (3, "Try Camera 3 (Possible iPhone)");
             (4, "Try Camera 4 (Possible iPhone)");
             (5, "Try Camera 5 (Possible iPhone)")]) as Hoptions
    by (vm_compute; reflexivity).
  split; [exact Hoptions|].
  intros (extra & Hlen & Heq). rewrite Hoptions in Heq.
  assert (detected_option (get_camera_names lone_camera silent_host)
            <$> available_cameras lone_camera = [(0, "Camera 0")]) as Hdetected
    by (vm_compute; reflexivity).
  rewrite Hdetected in Heq. simpl in Heq.
  injection Heq as <-. simpl in Hlen. lia.
Qed.

(** C5, amended. The output is, in this order: one [(index, name)] pair
    per detected camera; then the iPhone entry, when an iPhone camera was
    found and its index is not a detected one; then one "Try Camera" entry
    for each of the indices 2, 3, 4, 5 that is not listed yet. Nothing
    else is appended. *)
Theorem camera_options_layout (self : CameraManager) (host : Host) :
  let detected :=
    detected_option (get_camera_names self host) <$> available_cameras self in
  let iphone :=
    match iphone_camera host with
    | Some iphone_idx =>
        if bool_decide (iphone_idx ∉ available_cameras self)
        then [iphone_option iphone_idx] else []
    | None => []
    end in
  let guesses :=
    try_option <$> filter (λ idx, idx ∉ (detected ++ iphone).*1) [2; 3; 4; 5] in
  get_available_camera_options self host = detected ++ iphone ++ guesses
  ∧ detected.*1 = available_cameras self
  ∧ (length iphone ≤ 1)%nat
  ∧ (length guesses ≤ 4)%nat.
Proof.
  intros detected iphone guesses.
  assert (NoDup [2; 3; 4; 5]) as Hnodup.
  { repeat (apply NoDup_cons; split;
            [rewrite ?not_elem_of_cons; repeat split; try lia; apply not_elem_of_nil|]).
    apply NoDup_nil_2. }
  split.
  - unfold get_available_camera_options. fold detected.
    rewrite (try_options_appended _ Hnodup).
    subst guesses iphone.
    destruct (iphone_camera host) as [iphone_idx|].
    + case_bool_decide.
      * by rewrite <- app_assoc.
      * by rewrite !app_nil_r.
    + by rewrite !app_nil_r.
  - split.
    { subst detected. rewrite <- list_fmap_compose.
      apply list_fmap_id. }
    split.
    + subst iphone. destruct (iphone_camera host); [case_bool_decide|]; simpl; lia.
    + subst guesses. rewrite length_fmap.
      etrans; [apply length_filter|]. simpl. lia.
Qed.

(** C10. When the registry already has a feed under a name,
    [create_camera_feed] with that name makes a new feed object, binds the
    name to it and returns it. The feed bound before is still in the store
    exactly as it was: still connected, its capture not released, its loop
    not told to stop; the world of devices is untouched, and so are the
    other names. *)
Theorem create_camera_feed_replaces
    (self : CameraManager) (host : Host) (st : Store)
    (camera_index : Z) (feed_name : string) (old : nat) (f : CameraFeed) :
  camera_feeds self !! feed_name = Some old →
  objects st !! old = Some f →
  ∃ new self' st',
    create_camera_feed self camera_index feed_name host st = (new, self', st')
    ∧ new ≠ old
    ∧ get_feed self' feed_name = Some new
    ∧ objects st' !! new
      = Some (CameraFeed_init camera_index
                (default ("Camera " +:+ str camera_index)
                         (get_camera_names self host !! camera_index)))
    ∧ objects st' !! old = Some f
    ∧ outside st' = outside st
    ∧ (∀ address, address ≠ new → objects st' !! address = objects st !! address)
    ∧ (∀ other, other ≠ feed_name → get_feed self' other = get_feed self other)
    ∧ available_cameras self' = available_cameras self.
Proof.
  intros Hbound Hstored. unfold create_camera_feed.
  set (new := fresh (dom (objects st))).
  assert (new ≠ old) as Hnew.
  { intros Heq. apply (is_fresh (dom (objects st))). fold new. rewrite Heq.
    apply elem_of_dom. by eexists. }
  eexists _, _, _. split; [reflexivity|]. unfold get_feed. simpl.
  split; [exact Hnew|].
  split; [apply lookup_insert_eq|].
  split; [apply lookup_insert_eq|].
  split; [by rewrite lookup_insert_ne|].
  split; [done|].
  split; [intros address Haddress; by rewrite lookup_insert_ne|].
  split; [intros other Hother; by rewrite lookup_insert_ne|done].
Qed.

Lemma create_camera_feed_replaces_witness :
  ∃ new self' st',
    create_camera_feed busy_manager 1 "rgb_feed" silent_host busy_store
    = (new, self', st')
    ∧ get_feed self' "rgb_feed" = Some new
    ∧ objects st' !! 0%nat = Some (self connected_feed)
    ∧ outside st' = world connected_feed.
Proof.
  destruct (create_camera_feed_replaces busy_manager silent_host busy_store
              1 "rgb_feed" 0 (self connected_feed))
    as (new & self' & st' & Hrun & _ & Hbound & _ & Hkept & Hworld & _).
  - reflexivity.
  - reflexivity.
  - exists new, self', st'. split; [exact Hrun|]. split; [exact Hbound|].
    split; [exact Hkept|exact Hworld].
Defined.

(** * Further properties *)

(** ** The settings of the processor *)

(** X1. Four quarter turns in the same direction leave the settings as
    they were, with the angle reduced modulo 360 (so unchanged when it was
    between 0 and 359). *)
Theorem four_quarter_turns (self : ImageProcessor) :
  rotate_clockwise (rotate_clockwise (rotate_clockwise (rotate_clockwise self)))
  = set_rotation self (rotation_angle self)
  ∧ rotate_counterclockwise (rotate_counterclockwise
      (rotate_counterclockwise (rotate_counterclockwise self)))
    = set_rotation self (rotation_angle self)
  ∧ (rotation_angle (set_rotation self (rotation_angle self)) = rotation_angle self
     ↔ 0 ≤ rotation_angle self < 360).
Proof.
  unfold rotate_clockwise, rotate_counterclockwise, set_rotation. simpl.
  split; [|split].
  - f_equal. Z.div_mod_to_equations. lia.
  - f_equal. Z.div_mod_to_equations. lia.
  - split.
    + intros <-. apply Z.mod_pos_bound. lia.
    + intros Hrange. by apply Z.mod_small.
Qed.

(** X2. A quarter turn one way and a quarter turn back cancel: the
    settings are as before, with the angle reduced modulo 360. *)
Theorem quarter_turn_and_back (self : ImageProcessor) :
  rotate_counterclockwise (rotate_clockwise self)
  = set_rotation self (rotation_angle self)
  ∧ rotate_clockwise (rotate_counterclockwise self)
    = set_rotation self (rotation_angle self).
Proof.
  unfold rotate_clockwise, rotate_counterclockwise, set_rotation. simpl.
  split; f_equal; Z.div_mod_to_equations; lia.
Qed.

(** [set_rotation] does not tell angles that differ by whole turns
    apart, negative angles included. *)
Theorem set_rotation_whole_turns (self : ImageProcessor) (angle k : Z) :
  set_rotation self (angle + 360 * k) = set_rotation self angle
  ∧ set_rotation self (- angle) = set_rotation self (360 - angle).
Proof.
  unfold set_rotation. split; f_equal.
  - rewrite (Z.mul_comm 360 k). apply Z.mod_add. lia.
  - replace (360 - angle) with (- angle + 1 * 360) by lia.
    symmetry. apply Z.mod_add. lia.
Qed.

Lemma quarter_turn_next (angle : Z) :
  quarter_turn angle →
  quarter_turn ((angle + 90) `mod` 360) ∧ quarter_turn ((angle - 90) `mod` 360).
Proof.
  unfold quarter_turn.
  intros [-> | [-> | [-> | ->]]]; vm_compute; intuition congruence.
Qed.

(** X3. The stored angle stays one of 0, 90, 180, 270 through any
    sequence of calls of the setters, as long as [set_rotation] is only
    given multiples of 90. *)
Theorem edits_keep_quarter_turns (self : ImageProcessor) (es : list Edit) :
  quarter_turn (rotation_angle self) →
  forallb asks_quarter_turns es = true →
  quarter_turn (rotation_angle (foldl edit self es)).
Proof.
  revert self. induction es as [|e es IH]; intros self Hangle Hes; [done|].
  simpl in Hes. apply andb_true_iff in Hes as [He Hes].
  simpl. apply IH; [|done].
  destruct e; simpl; try done.
  - by left.
  - simpl in He. apply Z.eqb_eq in He.
    pose proof (Z.mod_pos_bound angle 360 ltac:(lia)).
    pose proof (Z.div_mod angle 360 ltac:(lia)).
    pose proof (Z.div_mod angle 90 ltac:(lia)).
    unfold quarter_turn. lia.
  - by apply quarter_turn_next.
  - by apply quarter_turn_next.
Qed.

Lemma edits_keep_quarter_turns_witness :
  quarter_turn
    (rotation_angle
       (foldl edit ImageProcessor_init
          [EditRotateCounterclockwise; EditSetRotation (-450);
           EditToggleFlipVertical; EditRotateClockwise;
           EditSetCropRegion 1 2 3 4; EditRotateClockwise])).
Proof.
  apply edits_keep_quarter_turns; [by left|reflexivity].
Defined.

(** X4. A crop request that lies inside the frame is taken as it is, and
    clamping a clamped rectangle changes nothing. *)
Theorem clamp_crop_inside_and_idempotent
    (a : ndarray) (x y w h : Z) :
  1 ≤ height a → 1 ≤ width a →
  (0 ≤ x → 1 ≤ w → x + w ≤ width a →
   0 ≤ y → 1 ≤ h → y + h ≤ height a →
   clamp_crop (x, y, w, h) a = (x, y, w, h))
  ∧ clamp_crop (clamp_crop (x, y, w, h) a) a = clamp_crop (x, y, w, h) a.
Proof.
  intros Hheight Hwidth. unfold clamp_crop, shape. split.
  - intros. f_equal; [f_equal; [f_equal|]|]; lia.
  - f_equal; [f_equal; [f_equal|]|]; lia.
Qed.

Lemma clamp_crop_inside_and_idempotent_witness :
  clamp_crop (1, 0, 2, 1) [[1; 2; 3]; [4; 5; 6]] = (1, 0, 2, 1)
  ∧ clamp_crop (clamp_crop (7, -3, 0, 9) [[1; 2; 3]; [4; 5; 6]])
               [[1; 2; 3]; [4; 5; 6]]
    = clamp_crop (7, -3, 0, 9) [[1; 2; 3]; [4; 5; 6]].
Proof.
  destruct (clamp_crop_inside_and_idempotent [[1; 2; 3]; [4; 5; 6]] 1 0 2 1)
    as [Hinside _]; [vm_compute; discriminate..|].
  destruct (clamp_crop_inside_and_idempotent [[1; 2; 3]; [4; 5; 6]] 7 (-3) 0 9)
    as [_ Hagain]; [vm_compute; discriminate..|].
  split; [|exact Hagain].
  apply Hinside; vm_compute; discriminate.
Defined.

(** X5. Without a crop, [process_frame] gives a raster of the size of its
    input, height and width swapped when the angle is 90 or 270. *)
Theorem process_frame_shape_without_crop
    (self : ImageProcessor) (frame : ndarray) :
  is_raster frame = true →
  crop_region self = None →
  ∃ out,
    process_frame self (Some frame) = Some out
    ∧ is_raster out = true
    ∧ shape out
      = if bool_decide (rotation_angle self = 90 ∨ rotation_angle self = 270)
        then (width frame, height frame)
        else (height frame, width frame).
Proof.
  intros Hraster Hcrop.
  destruct (is_raster_rect frame Hraster) as (h & w & Hh & Hw & Hrect).
  exists (apply_flips self (apply_rotation self (copy frame))).
  split; [unfold process_frame, apply_crop; by rewrite Hcrop|].
  pose proof (rect_shape h w frame Hrect Hh) as Hshape.
  assert (height frame = Z.of_nat h ∧ width frame = Z.of_nat w) as [-> ->]
    by (unfold shape in Hshape; by inversion Hshape).
  assert (∀ h' w' (a : ndarray), (0 < h')%nat → (0 < w')%nat → rect h' w' a →
            is_raster a = true) as Hback.
  { intros h' w' a Hh' Hw' Ha. unfold is_raster.
    pose proof (rect_shape h' w' a Ha Hh') as Hs. unfold shape in Hs.
    inversion Hs as [[Hhe Hwi]]. rewrite Hhe, Hwi.
    rewrite !andb_true_iff, !Z.ltb_lt. split; [lia|].
    apply Is_true_true_1, forallb_True. destruct Ha as [_ Hrows].
    eapply Forall_impl; [exact Hrows|]. intros r Hr. simpl in *.
    apply Is_true_true_2, Z.eqb_eq. unfold width in Hwi. lia. }
  destruct (rect_before_crop self h w (copy frame) Hrect Hh)
    as [(Hr & N90 & N270)|(Hr & Hquarter)].
  - split; [by apply (Hback h w)|].
    rewrite (rect_shape h w _ Hr Hh).
    rewrite bool_decide_eq_false_2; [done|]. by intros [?|?].
  - split; [by apply (Hback w h)|].
    rewrite (rect_shape w h _ Hr Hw).
    by rewrite bool_decide_eq_true_2.
Qed.

Lemma process_frame_shape_without_crop_witness :
  ∃ out, process_frame (set_rotation ImageProcessor_init 270)
           (Some [[1; 2; 3]; [4; 5; 6]]) = Some out
         ∧ shape out = (3, 2).
Proof.
  destruct (process_frame_shape_without_crop
              (set_rotation ImageProcessor_init 270) [[1; 2; 3]; [4; 5; 6]])
    as (out & Hrun & _ & Hshape); [reflexivity..|].
  exists out. split; [exact Hrun|]. rewrite Hshape. reflexivity.
Defined.




(** X7. The dictionary [get_settings_dict] makes brings the same settings
    back through [load_settings_dict], whatever the processor that loads
    it held before. *)
Theorem settings_dict_round_trip (self other : ImageProcessor) :
  load_settings_dict other (get_settings_dict self) = Some self.
Proof.
  destruct self as [angle horizontal vertical [[[[x y] w] h]|]];
    vm_compute; reflexivity.
Qed.

(** X8. [load_settings_dict] takes what the dictionary says and nothing
    from the processor: a key that is missing gives the default of
    [__init__], not the value the processor held, and an angle is stored as
    written, not reduced modulo 360. *)
Theorem load_settings_dict_defaults (self : ImageProcessor) (angle : Z) :
  load_settings_dict self ∅ = Some ImageProcessor_init
  ∧ load_settings_dict self {[ "rotation_angle" := PyInt angle ]}
    = Some {| rotation_angle := angle; flip_horizontal := false;
              flip_vertical := false; crop_region := None |}
  ∧ load_settings_dict self (delete "rotation_angle" (get_settings_dict self))
    = Some {| rotation_angle := 0; flip_horizontal := flip_horizontal self;
              flip_vertical := flip_vertical self;
              crop_region := crop_region self |}
  ∧ load_settings_dict self (delete "crop_region" (get_settings_dict self))
    = Some (clear_crop self).
Proof.
  destruct self as [a horizontal vertical [[[[x y] w] h]|]];
    repeat split; vm_compute; reflexivity.
Qed.

(** ** Subscriptions *)




Lemma remove_first_appended (callback : Callable) (callbacks : list Callable) :
  remove_first (cb_id callback) (callbacks ++ [callback])
  = if bool_decide (cb_id callback ∈ cb_id <$> callbacks)
    then remove_first (cb_id callback) callbacks ++ [callback]
    else callbacks.
Proof.
  induction callbacks as [|first rest IH].
  - simpl. by rewrite decide_True.
  - simpl. destruct (decide (cb_id first = cb_id callback)) as [Heq|Hne].
    + rewrite bool_decide_eq_true_2; [done|]. rewrite Heq. by left.
    + rewrite IH. case_bool_decide as Hin.
      * rewrite bool_decide_eq_true_2; [done|]. by right.
      * rewrite bool_decide_eq_false_2; [done|].
        rewrite not_elem_of_cons. split; [congruence|done].
Qed.



(** X10. Subscribing a callback and removing it again gives the list of
    subscribers back when the callback was not subscribed before. When it
    was, its oldest subscription is the one that goes, so the callback
    ends up last in the order of the calls. *)
Theorem add_then_remove_frame_callback (callback : Callable) (s : Ctx) :
  ∃ s',
    (add_frame_callback callback;; remove_frame_callback callback) s = (Ok (), s')
    ∧ world s' = world s
    ∧ frame_callbacks (self s')
      = if bool_decide (cb_id callback ∈ cb_id <$> frame_callbacks (self s))
        then remove_first (cb_id callback) (frame_callbacks (self s)) ++ [callback]
        else frame_callbacks (self s).
Proof.
  unfold add_frame_callback, remove_frame_callback.
  cbv [mbind method_bind get assign mret method_ret].
  cbn [self world frame_callbacks set_frame_callbacks].
  rewrite bool_decide_eq_true_2.
  - eexists. split; [done|]. split; [done|].
    cbn [self frame_callbacks set_frame_callbacks].
    apply remove_first_appended.
  - rewrite fmap_app, elem_of_app. right. simpl. by left.
Qed.

(** ** A single capture *)

(** [capture_frame] on a feed that is not active, or that holds no
    camera, returns [None] and does not touch the camera: the frames
    waiting in the device are all still there. *)
Theorem capture_frame_refused (processed : bool) (s : Ctx) :
  is_active (self s) = false ∨ camera (self s) = None →
  capture_frame processed s = (Ok None, s).
Proof.
  intros Hoff. unfold capture_frame.
  cbv [mbind method_bind get mret method_ret].
  destruct (camera (self s)) as [cam|] eqn:Hcam; [|done].
  destruct Hoff as [-> | Hnone]; [done|discriminate Hnone].
Qed.

Lemma capture_frame_refused_witness :
  capture_frame true connected_feed = (Ok None, connected_feed).
Proof. apply capture_frame_refused. left. reflexivity. Defined.

(** X11. [capture_frame] on an active feed takes the next frame out of the
    camera: it returns that frame, processed under the current settings
    when asked to, and the capture loop will not see it. The feed itself
    is unchanged: the frame is not stored as the current one, and the
    subscribers are not called. *)
Theorem capture_frame_takes_next
    (processed : bool) (s : Ctx) (cam : nat) (c : VideoCapture)
    (frame : ndarray) (rest : list (bool * option ndarray)) :
  is_active (self s) = true →
  camera (self s) = Some cam →
  captures (world s) !! cam = Some c →
  cap_opened c = true →
  cap_pending c = (true, Some frame) :: rest →
  capture_frame processed s =
    (Ok (if processed then process_frame (processor (self s)) (Some frame)
         else Some frame),
     {| self := self s;
        world := {| devices := devices (world s);
                    captures := <[cam := {| cap_index := cap_index c;
                                            cap_opened := true;
                                            cap_props := cap_props c;
                                            cap_pending := rest |}]>
                                  (captures (world s));
                    notified := notified (world s) |} |}).
Proof.
  intros Hactive Hcam Hcap Hopen Hpending. unfold capture_frame.
  cbv [mbind method_bind get mret method_ret cv2 cap_read with_captures].
  rewrite Hcam, Hactive, Hcap, Hopen, Hpending. cbn [self world].
  by destruct processed.
Qed.

Lemma capture_frame_takes_next_witness :
  fst (capture_frame true
         {| self := set_is_active true (self connected_feed);
            world := world connected_feed |})
  = Ok (Some [[2]]).
Proof.
  erewrite (capture_frame_takes_next true _ 0); try reflexivity.
Defined.

(** What [capture_frame] leaves alone, whatever it finds. *)
Lemma capture_frame_self (processed : bool) (s : Ctx) :
  ∃ out w,
    capture_frame processed s = (Ok out, {| self := self s; world := w |})
    ∧ devices w = devices (world s)
    ∧ notified w = notified (world s).
Proof.
  unfold capture_frame. cbv [mbind method_bind get mret method_ret cv2].
  destruct (camera (self s)) as [cam|];
    [|exists None, (world s); by destruct s].
  destruct (is_active (self s));
    [|exists None, (world s); by destruct s].
  unfold cap_read.
  destruct (captures (world s) !! cam) as [c|];
    [|exists None, (world s); by destruct s].
  destruct (cap_opened c);
    [|exists None, (world s); by destruct s].
  destruct (cap_pending c) as [|[[] frame] rest];
    [exists None, (world s); by destruct s|..];
    destruct processed; cbn; by eexists _, _.
Qed.

(** X12. [capture_frame] never raises and never changes the feed object,
    in whatever state the feed and the camera are: the stored frames, the
    settings and the subscribers are as before, and no subscriber is
    called. *)
Theorem capture_frame_leaves_feed (processed : bool) (s : Ctx) :
  ∃ out s',
    capture_frame processed s = (Ok out, s')
    ∧ self s' = self s
    ∧ devices (world s') = devices (world s)
    ∧ notified (world s') = notified (world s).
Proof.
  destruct (capture_frame_self processed s) as (out & w & -> & Hdev & Hcalls).
  by eexists _, _.
Qed.

(** ** Starting and stopping a feed *)

(** What [connect] does, in one equation: it succeeds exactly on a
    readable camera, touches no capture but the one it opens, and of the
    feed changes [camera] and [is_connected] only. *)
Lemma connect_outcome (s : Ctx) :
  let h := fresh (dom (captures (world s))) in
  let ok := readable (world s) (camera_index (self s)) in
  ∃ w,
    connect s =
      (Ok ok,
       {| self := set_is_connected ok
                    (set_camera (if ok then Some h else None) (self s));
          world := w |})
    ∧ devices w = devices (world s)
    ∧ notified w = notified (world s)
    ∧ isOpened h w = ok
    ∧ (∀ k, k ≠ h → captures w !! k = captures (world s) !! k).
Proof.
  intros h ok. subst ok. unfold readable.
  destruct (devices (world s) !! camera_index (self s)) as [[|frames]|] eqn:Hdev.
  - rewrite (connect_faulty s Hdev). exists (world s).
    split; [done|]. split; [done|]. split; [done|]. split; [|done].
    unfold isOpened.
    by rewrite (proj1 (not_elem_of_dom (captures (world s)) h)
                  (is_fresh (dom (captures (world s))))).
  - pose proof (connect_present s frames Hdev) as Hrun. fold h in Hrun.
    rewrite Hrun.
    destruct frames as [|[[] [frame|]] rest]; eexists;
      (split; [reflexivity|]); simpl;
      (split; [done|]); (split; [done|]);
      (split; [unfold isOpened; simpl; by rewrite lookup_insert_eq|]);
      intros k Hk; by rewrite lookup_insert_ne.
  - pose proof (connect_absent s Hdev) as Hrun. fold h in Hrun.
    rewrite Hrun. eexists. split; [reflexivity|]. simpl.
    split; [done|]. split; [done|].
    split; [unfold isOpened; simpl; by rewrite lookup_insert_eq|].
    intros k Hk. by rewrite lookup_insert_ne.
Qed.

(** [start_feed], statement by statement. *)
Lemma start_feed_run (thread : nat) (s : Ctx) :
  start_feed thread s =
    match (if is_connected (self s) then (Ok true, s) else connect s) with
    | (Ok true, s1) =>
        if is_active (self s1) then (Ok true, s1)
        else (Ok true,
              {| self := set_is_active true
                           (set_capture_thread (Some thread)
                              (set_stop_capture false (self s1)));
                 world := world s1 |})
    | (Ok false, s1) => (Ok false, s1)
    | (Raise, s1) => (Raise, s1)
    end.
Proof.
  unfold start_feed. cbv [mbind method_bind get mret method_ret assign].
  destruct (is_connected (self s)).
  - by destruct (is_active (self s)).
  - destruct (connect s) as [[[]|] s1]; [|done..].
    by destruct (is_active (self s1)).
Qed.

(** X13. [start_feed] on a feed that is not connected and whose camera is
    not readable returns [False]: no capture thread is started, the feed
    is left disconnected and without a capture, and no capture is open
    that was not open before. *)
Theorem start_feed_without_camera (r : Runtime) :
  is_connected (self (feed r)) = false →
  readable (world (feed r)) (camera_index (self (feed r))) = false →
  ∃ r',
    call_start_feed r = (Ok false, r')
    ∧ alive r' = alive r
    ∧ started r' = started r
    ∧ self (feed r')
      = set_is_connected false (set_camera None (self (feed r)))
    ∧ (∀ k, isOpened k (world (feed r')) = true →
            isOpened k (world (feed r)) = true).
Proof.
  intros Hconn Hdark. unfold call_start_feed. rewrite start_feed_run, Hconn.
  destruct (connect_outcome (feed r)) as (w & Hrun & _ & _ & Hclosed & Hkept).
  rewrite Hdark in Hrun, Hclosed. rewrite Hrun.
  eexists. split; [done|]. cbn [feed alive started self world].
  split; [done|]. split; [done|]. split; [done|].
  intros k. unfold isOpened in *.
  destruct (decide (k = fresh (dom (captures (world (feed r)))))) as [->|Hk].
  - by rewrite Hclosed.
  - by rewrite Hkept.
Qed.

Lemma start_feed_without_camera_witness :
  ∃ r', call_start_feed (boot 3 "Camera 3" (world dark_feed)) = (Ok false, r')
        ∧ alive r' = ∅.
Proof.
  destruct (start_feed_without_camera (boot 3 "Camera 3" (world dark_feed)))
    as (r' & Hrun & Halive & _); [reflexivity..|].
  exists r'. split; [exact Hrun|]. rewrite Halive. reflexivity.
Defined.

(** X14. [start_feed] on a feed that is neither connected nor active and
    whose camera is readable connects it, clears [stop_capture], marks the
    feed active and starts one capture thread, whose loop condition
    holds. *)
Theorem start_feed_connects_and_starts (r : Runtime) :
  is_connected (self (feed r)) = false →
  is_active (self (feed r)) = false →
  readable (world (feed r)) (camera_index (self (feed r))) = true →
  let h := fresh (dom (captures (world (feed r)))) in
  ∃ r',
    call_start_feed r = (Ok true, r')
    ∧ alive r' = {[ started r ]} ∪ alive r
    ∧ started r' = S (started r)
    ∧ self (feed r')
      = set_is_active true
          (set_capture_thread (Some (started r))
             (set_stop_capture false
                (set_is_connected true (set_camera (Some h) (self (feed r))))))
    ∧ isOpened h (world (feed r')) = true
    ∧ loop_condition (feed r') = true.
Proof.
  intros Hconn Hactive Hreadable h. unfold call_start_feed.
  rewrite start_feed_run, Hconn, Hactive.
  destruct (connect_outcome (feed r)) as (w & Hrun & _ & _ & Hopen & _).
  rewrite Hreadable in Hrun, Hopen. rewrite Hrun.
  cbn [self is_active set_is_connected set_camera]. rewrite Hactive.
  eexists. split; [done|]. cbn [feed alive started self world].
  split; [done|]. split; [done|]. split; [done|]. split; [done|].
  unfold loop_condition. cbn. exact Hopen.
Qed.

Lemma start_feed_connects_and_starts_witness :
  ∃ r', call_start_feed (boot 0 "Camera 0" desk) = (Ok true, r')
        ∧ alive r' = {[ 0%nat ]} ∪ ∅
        ∧ loop_condition (feed r') = true.
Proof.
  destruct (start_feed_connects_and_starts (boot 0 "Camera 0" desk))
    as (r' & Hrun & Halive & _ & _ & _ & Hloop); [reflexivity..|].
  exists r'. split; [exact Hrun|]. split; [exact Halive|exact Hloop].
Defined.

(** X15. [start_feed] on a feed marked connected and active returns
    [True] and does nothing: it opens no camera and starts no thread. It
    does not look whether a capture thread is alive, so a feed whose loop
    has ended on its own is not started again. *)
Theorem start_feed_when_active_does_nothing (r : Runtime) :
  is_connected (self (feed r)) = true →
  is_active (self (feed r)) = true →
  call_start_feed r = (Ok true, r).
Proof.
  intros Hconn Hactive. unfold call_start_feed.
  rewrite start_feed_run, Hconn, Hactive. by destruct r.
Qed.

(** A [start_feed] that returns [True] leaves the feed connected and
    active. *)
Lemma start_feed_true (r r' : Runtime) :
  call_start_feed r = (Ok true, r') →
  is_connected (self (feed r')) = true ∧ is_active (self (feed r')) = true.
Proof.
  unfold call_start_feed. rewrite start_feed_run.
  destruct (is_connected (self (feed r))) eqn:Hconn.
  - destruct (is_active (self (feed r))) eqn:Hactive;
      intros [= <-]; cbn; by rewrite ?Hconn, ?Hactive.
  - destruct (connect_outcome (feed r)) as (w & -> & _).
    destruct (readable _ _); [|discriminate].
    cbn [self is_active set_is_connected set_camera].
    destruct (is_active (self (feed r))) eqn:Hactive;
      intros [= <-]; cbn; by rewrite ?Hactive.
Qed.

(** X16. Two calls of [start_feed] in a row, the first returning [True]:
    the second returns [True] and changes nothing, so one capture thread
    at most has been started. *)
Theorem start_feed_twice (r r1 : Runtime) :
  call_start_feed r = (Ok true, r1) →
  call_start_feed r1 = (Ok true, r1)
  ∧ (alive r1 = alive r ∨ alive r1 = {[ started r ]} ∪ alive r).
Proof.
  intros Hfirst. destruct (start_feed_true r r1 Hfirst) as [Hconn Hactive].
  split.
  - unfold call_start_feed. rewrite start_feed_run, Hconn, Hactive.
    by destruct r1.
  - revert Hfirst. unfold call_start_feed.
    destruct (start_feed (started r) (feed r)) as [[[]|] s]; [|discriminate..].
    destruct (is_active (self (feed r))); intros [= <-]; cbn;
      first [by left | by right].
Qed.

Lemma start_feed_twice_witness :
  ∃ r1, call_start_feed (boot 0 "Camera 0" desk) = (Ok true, r1)
        ∧ call_start_feed r1 = (Ok true, r1)
        ∧ alive r1 = {[ 0%nat ]}.
Proof.
  exists (snd (call_start_feed (boot 0 "Camera 0" desk))).
  assert (call_start_feed (boot 0 "Camera 0" desk)
          = (Ok true, snd (call_start_feed (boot 0 "Camera 0" desk)))) as Hfirst
    by (vm_compute; reflexivity).
  split; [exact Hfirst|].
  split; [exact (proj1 (start_feed_twice _ _ Hfirst))|].
  vm_compute. reflexivity.
Defined.

(** What a turn of the loop leaves alone in the feed: all but the two
    stored frames. *)
Lemma loop_turn_keeps (s : Ctx) :
  ∃ raw made,
    self (loop_state (loop_turn s))
    = set_processed_frame made (set_current_frame raw (self s))
    ∧ devices (world (loop_state (loop_turn s))) = devices (world s).
Proof.
  assert (self s = set_processed_frame (processed_frame (self s))
                     (set_current_frame (current_frame (self s)) (self s)))
    as Hsame by by destruct s as [[] ?].
  unfold loop_turn.
  destruct (loop_condition s); [|by eexists _, _].
  unfold loop_body. cbv [mbind method_bind get cv2 raise].
  destruct (camera (self s)) as [cam|]; [|by eexists _, _].
  assert (∃ ret frame w', cap_read cam (world s) = (Ok (ret, frame), w')
                          ∧ devices w' = devices (world s))
    as (ret & frame & w' & -> & Hdev).
  { unfold cap_read. destruct (captures (world s) !! cam) as [c|]; [|by eauto 6].
    destruct (cap_opened c); [|by eauto 6].
    destruct (cap_pending c) as [|[ret frame] rest]; by eauto 6. }
  destruct ret; [|by eexists _, _].
  destruct frame as [frame|]; [|by eexists _, _].
  cbv [assign mret method_ret]. cbn [self world].
  rewrite for_callbacks_all_called. cbn. by eexists _, _.
Qed.

(** X17. After [stop_feed], however the wait for the thread ended, the
    feed is marked inactive and the condition of the capture loop is
    false: a capture thread that is still there leaves its loop at its
    next turn, without another read. The camera stays connected. *)
Theorem stop_feed_ends_loop (joined : bool) (r : Runtime) :
  let r' := call_stop_feed joined r in
  self (feed r') = set_is_active false (set_stop_capture true (self (feed r)))
  ∧ world (feed r') = world (feed r)
  ∧ loop_condition (feed r') = false
  ∧ alive r' ⊆ alive r
  ∧ ∀ thread,
      feed (thread_turn thread r') = feed r'
      ∧ thread ∉ alive (thread_turn thread r').
Proof.
  intros r'. subst r'. unfold call_stop_feed, stop_feed.
  cbv [mbind method_bind assign]. cbn [snd feed alive self world].
  split; [done|]. split; [done|]. split; [done|].
  split.
  - destruct (capture_thread (self (feed r))); [destruct joined|]; try done.
    by apply subseteq_difference_l.
  - intros thread. unfold thread_turn. cbn [feed alive started].
    case_bool_decide as Halive; [|done].
    unfold loop_turn, loop_condition. cbn. split; [done|].
    rewrite elem_of_difference, elem_of_singleton. tauto.
Qed.

(** X18. After [disconnect], from any state: the feed holds no camera and
    is neither connected nor active, the capture it held is released, and
    no other capture is touched. The frames stored last are still there.
    A second [disconnect] changes nothing. *)
Theorem disconnect_releases (joined : bool) (r : Runtime) :
  let r' := call_disconnect joined r in
  self (feed r')
  = set_is_connected false
      (set_camera None
         (set_is_active false (set_stop_capture true (self (feed r)))))
  ∧ current_frame (self (feed r')) = current_frame (self (feed r))
  ∧ processed_frame (self (feed r')) = processed_frame (self (feed r))
  ∧ loop_condition (feed r') = false
  ∧ (∀ cam, camera (self (feed r)) = Some cam →
            isOpened cam (world (feed r')) = false)
  ∧ (∀ k, camera (self (feed r)) ≠ Some k →
          captures (world (feed r')) !! k = captures (world (feed r)) !! k)
  ∧ feed (call_disconnect joined r') = feed r'.
Proof.
  intros r'. subst r'.
  destruct r as [[[idx nm cam act conn proc th stop raw made cbs] w] al st].
  unfold call_disconnect, disconnect, stop_feed.
  cbv [mbind method_bind assign get cv2 cap_release with_captures mret method_ret].
  destruct cam as [cam|]; cbn.
  - split; [done|]. split; [done|]. split; [done|]. split; [done|].
    split.
    + intros k [= <-]. unfold isOpened. cbn. rewrite lookup_alter_eq.
      by destruct (captures w !! cam).
    + split; [|done]. intros k Hk. rewrite lookup_alter_ne; [done|].
      congruence.
  - split; [done|]. split; [done|]. split; [done|]. split; [done|].
    split; [by intros k [=]|]. split; [|done]. by intros k _.
Qed.

(** ** How many capture threads *)

Lemma threads_known_le_1 (r : Runtime) :
  threads_known r → (size (alive r) ≤ 1)%nat.
Proof.
  intros Hknown. destruct (set_choose_or_empty (alive r)) as [[t Ht]|Hempty].
  - rewrite <- (size_singleton (C := gset nat) t). apply subseteq_size.
    intros t' Ht'. apply elem_of_singleton.
    destruct (Hknown t Ht) as [Hthread _], (Hknown t' Ht') as [Hthread' _].
    congruence.
  - apply size_empty_iff in Hempty. lia.
Qed.

(** A call keeps the threads known, when its wait for the thread (if it
    has one) ends with the thread gone. *)
Ltac by_known :=
  match goal with
  | Hknown : ∀ thread, thread ∈ alive ?r → _, Ht : ?t ∈ alive ?r |- _ =>
      destruct (Hknown t Ht) as [? ?]; split; congruence
  end.

Lemma call_keeps_threads_known (c : Call) (r : Runtime) :
  joins c = true → threads_known r → threads_known (call c r).
Proof.
  intros Hjoins Hknown.
  pose proof Hknown as Hknown'. unfold threads_known in Hknown'.
  destruct c as [|joined|joined| |processed|thread|index device];
    simpl in Hjoins; try subst joined; simpl.
  - (* start_feed *)
    unfold call_start_feed. rewrite start_feed_run.
    assert (∃ ok s1,
              (if is_connected (self (feed r)) then (Ok true, feed r)
               else connect (feed r)) = (Ok ok, s1)
              ∧ capture_thread (self s1) = capture_thread (self (feed r))
              ∧ is_active (self s1) = is_active (self (feed r)))
      as (ok & s1 & -> & Hthread & Hactive).
    { destruct (is_connected (self (feed r))); [by eexists _, _|].
      destruct (connect_outcome (feed r)) as (w & -> & _). by eexists _, _. }
    destruct ok; [|intros t Ht; simpl in *; rewrite Hthread, Hactive; by_known].
    rewrite Hactive.
    destruct (is_active (self (feed r))) eqn:Hwas; simpl.
    + intros t Ht. simpl in *. rewrite Hthread, Hactive. by_known.
    + intros t Ht. simpl in *.
      apply elem_of_union in Ht as [Ht%elem_of_singleton|Ht]; [by subst t|].
      destruct (Hknown t Ht) as [_ Habs]. congruence.
  - (* stop_feed *)
    intros t Ht. unfold call_stop_feed in Ht. simpl in Ht.
    destruct (capture_thread (self (feed r))) as [t0|] eqn:Hthread.
    + apply elem_of_difference in Ht as [Ht Hne].
      destruct (Hknown t Ht) as [Heq _]. rewrite Hthread in Heq.
      injection Heq as ->. destruct Hne. by apply elem_of_singleton.
    + destruct (Hknown t Ht) as [Heq _]. congruence.
  - (* disconnect *)
    intros t Ht. unfold call_disconnect in Ht. simpl in Ht.
    destruct (capture_thread (self (feed r))) as [t0|] eqn:Hthread.
    + apply elem_of_difference in Ht as [Ht Hne].
      destruct (Hknown t Ht) as [Heq _]. rewrite Hthread in Heq.
      injection Heq as ->. destruct Hne. by apply elem_of_singleton.
    + destruct (Hknown t Ht) as [Heq _]. congruence.
  - (* connect *)
    destruct (connect_outcome (feed r)) as (w & -> & _).
    intros t Ht. simpl in *. by_known.
  - (* capture_frame *)
    destruct (capture_frame_self processed (feed r)) as (out & w & -> & _).
    intros t Ht. simpl in *. by_known.
  - (* a turn of a capture thread *)
    unfold thread_turn. case_bool_decide as Halive; [|done].
    destruct (loop_turn_keeps (feed r)) as (raw & made & Hself & _).
    destruct (loop_turn (feed r)) as [s|s|s]; simpl in Hself;
      intros t Ht; simpl in *; rewrite Hself; simpl;
      try apply elem_of_difference in Ht as [Ht _]; by_known.
  - (* a camera plugged in or out *)
    intros t Ht. simpl in *. by_known.
Qed.

(** X19. From a feed just made, through any sequence of calls of
    [start_feed], [stop_feed], [disconnect], [connect] and
    [capture_frame], turns of the capture loop and cameras plugged in and
    out, at most one capture thread is alive, the one in [capture_thread],
    and the feed is marked active while it is. This is as long as every
    wait of [stop_feed] for its thread ends with the thread gone. *)
Theorem at_most_one_capture_thread
    (cs : list Call) (camera_index : Z) (name : string) (w : World) :
  forallb joins cs = true →
  let r := calls cs (boot camera_index name w) in
  (size (alive r) ≤ 1)%nat ∧ threads_known r.
Proof.
  intros Hjoins r.
  assert (threads_known r) as Hknown; [|by split; [apply threads_known_le_1|]].
  subst r. unfold calls.
  assert (threads_known (boot camera_index name w)) as Hboot
    by (intros t Ht; by apply not_elem_of_empty in Ht).
  revert Hboot. generalize (boot camera_index name w).
  induction cs as [|c cs IH]; intros r Hknown; [done|].
  simpl in Hjoins. apply andb_true_iff in Hjoins as [Hc Hcs].
  simpl. apply IH; [done|]. by apply call_keeps_threads_known.
Qed.

Lemma at_most_one_capture_thread_witness :
  (size (alive (calls [CallStart; Turn 0; CallStart; CallStop true; CallStart;
                       Turn 1; Plug 0 None; CallConnect; CallStart;
                       CallDisconnect true; CallStart]
                  (boot 0 "Camera 0" desk))) ≤ 1)%nat.
Proof.
  apply (at_most_one_capture_thread
           [CallStart; Turn 0; CallStart; CallStop true; CallStart;
            Turn 1; Plug 0 None; CallConnect; CallStart;
            CallDisconnect true; CallStart] 0 "Camera 0" desk).
  reflexivity.
Defined.

(** [stop_feed] and then [start_feed] on a connected feed. *)
Lemma stop_then_start (joined : bool) (r : Runtime) (thread : nat) :
  is_connected (self (feed r)) = true →
  capture_thread (self (feed r)) = Some thread →
  call_start_feed (call_stop_feed joined r) =
    (Ok true,
     {| feed := {| self := set_is_active true
                             (set_capture_thread (Some (started r))
                                (set_stop_capture false (self (feed r))));
                   world := world (feed r) |};
        alive := {[ started r ]}
                 ∪ (if joined then alive r ∖ {[ thread ]} else alive r);
        started := S (started r) |}).
Proof.
  intros Hconn Hthread.
  destruct r as [[[idx nm cam act conn proc th stop raw made cbs] w] al st].
  simpl in *. subst conn th.
  unfold call_start_feed, call_stop_feed. rewrite start_feed_run. by cbn.
Qed.

(** X20. [stop_feed] and then [start_feed] on a connected feed start the
    loop again: [stop_capture] is cleared, a new capture thread runs, and
    when the wait of [stop_feed] ended with the old thread gone the new
    one is the only one. *)
Theorem stop_then_start_restarts (r : Runtime) (thread : nat) :
  is_connected (self (feed r)) = true →
  capture_thread (self (feed r)) = Some thread →
  threads_known r →
  ∃ r',
    call_start_feed (call_stop_feed true r) = (Ok true, r')
    ∧ alive r' = {[ started r ]}
    ∧ capture_thread (self (feed r')) = Some (started r)
    ∧ is_active (self (feed r')) = true
    ∧ stop_capture (self (feed r')) = false
    ∧ camera (self (feed r')) = camera (self (feed r))
    ∧ world (feed r') = world (feed r).
Proof.
  intros Hconn Hthread Hknown. rewrite (stop_then_start true r thread) by done.
  eexists. split; [done|]. cbn. split; [|done].
  apply set_eq. intros t. rewrite elem_of_union, elem_of_difference, !elem_of_singleton.
  split; [|by left]. intros [->|[Ht Hne]]; [done|].
  destruct (Hknown t Ht) as [Heq _]. congruence.
Qed.

Lemma stop_then_start_restarts_witness :
  ∃ r', call_start_feed
          (call_stop_feed true (snd (call_start_feed (boot 0 "Camera 0" desk))))
        = (Ok true, r')
        ∧ alive r' = {[ 1%nat ]}.
Proof.
  destruct (stop_then_start_restarts
              (snd (call_start_feed (boot 0 "Camera 0" desk))) 0)
    as (r' & Hrun & Halive & _); [reflexivity..| |].
  - intros t Ht. vm_compute in Ht.
    assert (t ∈ ({[ 0%nat ]} : gset nat)) as Ht' by exact Ht.
    apply elem_of_singleton in Ht' as ->. split; reflexivity.
  - exists r'. split; [exact Hrun|exact Halive].
Defined.

(** X21. When the wait of [stop_feed] ends with the capture thread still
    in its loop (a read that takes more than the second), a following
    [start_feed] clears [stop_capture] and starts a second thread: two
    capture threads then run the loop on the same feed. *)
Theorem timed_out_join_leaves_two_threads (r : Runtime) (thread : nat) :
  is_connected (self (feed r)) = true →
  capture_thread (self (feed r)) = Some thread →
  thread ∈ alive r →
  started r ∉ alive r →
  ∃ r',
    call_start_feed (call_stop_feed false r) = (Ok true, r')
    ∧ thread ∈ alive r'
    ∧ started r ∈ alive r'
    ∧ thread ≠ started r
    ∧ (2 ≤ size (alive r'))%nat
    ∧ stop_capture (self (feed r')) = false
    ∧ camera (self (feed r')) = camera (self (feed r))
    ∧ world (feed r') = world (feed r).
Proof.
  intros Hconn Hthread Halive Hnew.
  rewrite (stop_then_start false r thread) by done.
  eexists. split; [done|]. cbn.
  split; [apply elem_of_union; by right|].
  split; [apply elem_of_union; left; by apply elem_of_singleton|].
  split; [by intros ->|].
  split; [|done].
  rewrite size_union by (apply disjoint_singleton_l; exact Hnew).
  rewrite size_singleton.
  assert (size (alive r) ≠ 0)%nat; [|lia].
  apply size_non_empty_iff. intros Hempty.
  apply (not_elem_of_empty (C := gset nat) thread). by apply Hempty.
Qed.

Lemma timed_out_join_leaves_two_threads_witness :
  ∃ r', call_start_feed
          (call_stop_feed false (snd (call_start_feed (boot 0 "Camera 0" desk))))
        = (Ok true, r')
        ∧ (2 ≤ size (alive r'))%nat.
Proof.
  destruct (timed_out_join_leaves_two_threads
              (snd (call_start_feed (boot 0 "Camera 0" desk))) 0)
    as (r' & Hrun & _ & _ & _ & Hsize & _); [reflexivity..| | |].
  - change (0%nat ∈ ({[ 0%nat ]} ∪ ∅ : gset nat)).
    apply elem_of_union. left. by apply elem_of_singleton.
  - change (1%nat ∉ ({[ 0%nat ]} ∪ ∅ : gset nat)).
    rewrite elem_of_union, elem_of_singleton. intros [Heq|Hin]; [discriminate Heq|].
    by apply not_elem_of_empty in Hin.
  - exists r'. split; [exact Hrun|exact Hsize].
Defined.

Lemma start_feed_when_active_does_nothing_witness :
  alive stale_feed = ∅ ∧ call_start_feed stale_feed = (Ok true, stale_feed).
Proof.
  split; [vm_compute; reflexivity|].
  apply start_feed_when_active_does_nothing; vm_compute; reflexivity.
Defined.

(** ** Detection of the cameras *)

Lemma detect_camera_outcome (available : list Z) (i : Z) (w : World) :
  ∃ w',
    detect_camera available i w
    = (if readable w i then available ++ [i] else available, w')
    ∧ devices w' = devices w
    ∧ notified w' = notified w
    ∧ (∀ k, isOpened k w' = true → isOpened k w = true)
    ∧ (∀ k, k ∈ dom (captures w) → captures w' !! k = captures w !! k).
Proof.
  unfold detect_camera, VideoCapture_new, readable.
  set (h := fresh (dom (captures w))).
  assert (∀ k, k ∈ dom (captures w) → k ≠ h) as Hold.
  { intros k Hk ->. by apply (is_fresh (dom (captures w))). }
  assert (captures w !! h = None) as Hnone
    by apply not_elem_of_dom, is_fresh.
  destruct (devices w !! i) as [[|frames]|].
  - exists w. by repeat split.
  - unfold isOpened, cap_set, cap_read, cap_release, with_captures.
    cbn [captures devices notified]. rewrite lookup_insert_eq.
    cbn [cap_opened]. rewrite alter_insert_eq, lookup_insert_eq.
    cbn [cap_opened cap_pending cap_index cap_props].
    destruct frames as [|[[] [frame|]] rest];
      cbn [snd captures devices notified andb is_not_None];
      rewrite ?insert_insert_eq, alter_insert_eq;
      eexists;
      (split; [reflexivity|]);
      cbn [captures devices notified];
      (split; [done|]); (split; [done|]);
      (split; [|intros k Hk; rewrite lookup_insert_ne; [done|]; by apply not_eq_sym, Hold]);
      intros k; destruct (decide (k = h)) as [->|Hk];
      rewrite ?lookup_insert_eq, ?lookup_insert_ne by done; done.
  - unfold isOpened, with_captures. cbn [captures]. rewrite lookup_insert_eq.
    cbn [cap_opened]. eexists. split; [reflexivity|]. cbn [captures devices notified].
    split; [done|]. split; [done|].
    split; [|intros k Hk; rewrite lookup_insert_ne; [done|]; by apply not_eq_sym, Hold].
    intros k. destruct (decide (k = h)) as [->|Hk];
      rewrite ?lookup_insert_eq, ?lookup_insert_ne by done; done.
Qed.

Lemma readable_devices (w w' : World) (i : Z) :
  devices w' = devices w → readable w' i = readable w i.
Proof. unfold readable. by intros ->. Qed.

Lemma detect_cameras_fold (indices : list Z) :
  ∀ (available : list Z) (w : World),
  ∃ w',
    foldl (λ '(available, w) i, detect_camera available i w)
          (available, w) indices
    = (available ++ filter (λ i, readable w i = true) indices, w')
    ∧ devices w' = devices w
    ∧ notified w' = notified w
    ∧ (∀ k, isOpened k w' = true → isOpened k w = true)
    ∧ (∀ k, k ∈ dom (captures w) → captures w' !! k = captures w !! k).
Proof.
  induction indices as [|i indices IH]; intros available w.
  - exists w. simpl. rewrite app_nil_r. by repeat split.
  - cbn [foldl].
    destruct (detect_camera_outcome available i w)
      as (w1 & -> & Hdev1 & Hnot1 & Hopen1 & Hkept1).
    destruct (IH (if readable w i then available ++ [i] else available) w1)
      as (w' & -> & Hdev & Hnot & Hopen & Hkept).
    exists w'. split.
    + f_equal.
      rewrite (filter_agree (λ i, readable w1 i = true) (λ i, readable w i = true))
        by (intros x _; by rewrite (readable_devices w w1 x Hdev1)).
      destruct (readable w i) eqn:Hi.
      * rewrite filter_cons_True by done. by rewrite <- app_assoc.
      * rewrite filter_cons_False; [done|]. by rewrite Hi.
    + split; [congruence|]. split; [congruence|]. split; [by auto|].
      intros k Hk. rewrite Hkept; [by apply Hkept1|].
      apply elem_of_dom. rewrite Hkept1 by done. by apply elem_of_dom.
Qed.

(** X22. [detect_cameras] finds exactly the indices from 0 to
    [max_cameras - 1] whose camera opens and gives a frame at its first
    read, in ascending order and each once; a limit of zero or less finds
    nothing. The list replaces the one the manager held, whatever that
    was, and the feeds of the manager are not touched. *)
Theorem detect_cameras_finds_readable
    (self : CameraManager) (max_cameras : Z) (w : World) :
  let found := filter (λ i, readable w i = true) (seqZ 0 max_cameras) in
  ∃ w',
    detect_cameras self max_cameras w
    = (found,
       {| available_cameras := found; camera_feeds := camera_feeds self |},
       w')
    ∧ NoDup found
    ∧ (∀ i, i ∈ found ↔ 0 ≤ i < max_cameras ∧ readable w i = true)
    ∧ (max_cameras ≤ 0 → found = []).
Proof.
  intros found. unfold detect_cameras.
  destruct (detect_cameras_fold (seqZ 0 max_cameras) [] w) as (w' & -> & _).
  exists w'. split; [done|].
  split; [apply NoDup_filter, NoDup_seqZ|].
  split.
  - intros i. subst found. rewrite list_elem_of_filter, elem_of_seqZ.
    split; intros [? ?]; split; try done; lia.
  - intros Hmax. subst found. unfold seqZ.
    by replace (Z.to_nat max_cameras) with 0%nat by lia.
Qed.

(** X23. [detect_cameras] leaves the cameras as it found them: every
    capture it opens is released or was never open, the captures that
    existed before are untouched, and no subscriber is called. *)
Theorem detect_cameras_leaves_nothing_open
    (self : CameraManager) (max_cameras : Z) (w : World) :
  ∃ found self' w',
    detect_cameras self max_cameras w = (found, self', w')
    ∧ devices w' = devices w
    ∧ notified w' = notified w
    ∧ (∀ k, isOpened k w' = true → isOpened k w = true)
    ∧ (∀ k, k ∈ dom (captures w) → captures w' !! k = captures w !! k).
Proof.
  unfold detect_cameras.
  destruct (detect_cameras_fold (seqZ 0 max_cameras) [] w)
    as (w' & -> & Hdev & Hnot & Hopen & Hkept).
  by eexists _, _, _.
Qed.

(** ** The names of the cameras *)

(** The second loop of [get_camera_names]: the names already there stay,
    the other detected indices get their default name. *)
Lemma fill_names_lookup (indices : list Z) :
  ∀ (names : gmap Z string) (idx : Z),
    foldl (λ (camera_names : gmap Z string) idx,
             match camera_names !! idx with
             | Some _ => camera_names
             | None => <[idx := "Camera " +:+ str idx]> camera_names
             end) names indices !! idx
    = match names !! idx with
      | Some n => Some n
      | None => if bool_decide (idx ∈ indices)
                then Some ("Camera " +:+ str idx) else None
      end.
Proof.
  induction indices as [|a indices IH]; intros names idx.
  - simpl. by destruct (names !! idx).
  - cbn [foldl]. rewrite IH. destruct (names !! a) as [n|] eqn:Ha.
    + destruct (names !! idx) as [n'|] eqn:Hidx; [done|].
      assert (idx ≠ a) as Hne by congruence.
      assert (bool_decide (idx ∈ a :: indices) = bool_decide (idx ∈ indices))
        as -> by (apply bool_decide_ext; rewrite elem_of_cons;
                   split; [intros [Heq|Hin]; [by destruct Hne|done]|by right]).
      done.
    + destruct (decide (idx = a)) as [->|Hne].
      * rewrite lookup_insert_eq, Ha.
        rewrite (bool_decide_eq_true_2 (a ∈ a :: indices)); [done|by left].
      * rewrite lookup_insert_ne by done.
        destruct (names !! idx); [done|].
        assert (bool_decide (idx ∈ a :: indices) = bool_decide (idx ∈ indices))
          as -> by (apply bool_decide_ext; rewrite elem_of_cons;
                   split; [intros [Heq|Hin]; [by destruct Hne|done]|by right]).
        done.
Qed.

(** The first loop of [get_camera_names]: the camera listed at position
    [i] names the index detected at position [i]. *)
Lemma place_names_lookup (available : list Z) (cameras : list (option string))
    (idx : Z) (v : string) :
  foldl (λ (camera_names : gmap Z string) '(i, camera),
           match available !! (i : nat) with
           | Some idx =>
               <[idx := default ("Camera " +:+ str idx) camera]> camera_names
           | None => camera_names
           end)
        ∅ (zip (seq 0 (length cameras)) cameras) !! idx = Some v
  → ∃ i camera, available !! i = Some idx ∧ cameras !! i = Some camera
                ∧ v = default ("Camera " +:+ str idx) camera
                ∧ ∀ j camera', (i < j)%nat → available !! j = Some idx →
                               cameras !! j = Some camera' → False.
Proof.
  revert v. induction cameras as [|c cameras IH] using rev_ind; intros v.
  - simpl. by rewrite lookup_empty.
  - rewrite length_app. simpl length.
    rewrite seq_app, zip_with_app by by rewrite length_seq.
    rewrite foldl_app. cbn [zip_with foldl seq Nat.add].
    destruct (available !! length cameras) as [idx'|] eqn:Hlast.
    + destruct (decide (idx = idx')) as [->|Hne].
      * rewrite lookup_insert_eq. intros [= <-].
        exists (length cameras), c. split; [done|].
        split; [by rewrite lookup_app_r, Nat.sub_diag by lia|].
        split; [done|]. intros j camera' Hj _ Hsome.
        apply lookup_lt_Some in Hsome. rewrite length_app in Hsome.
        simpl in Hsome. lia.
      * rewrite lookup_insert_ne by done. intros Hv.
        destruct (IH v Hv) as (i & camera & Hi & Hcam & -> & Hlater).
        exists i, camera. split; [done|].
        split; [rewrite lookup_app_l; [done|]; by eapply lookup_lt_Some|].
        split; [done|]. intros j camera' Hj Hidx Hsome.
        destruct (decide (j = length cameras)) as [->|Hjne]; [congruence|].
        apply (Hlater j camera' Hj Hidx).
        rewrite lookup_app_l in Hsome; [done|].
        apply lookup_lt_Some in Hsome. rewrite length_app in Hsome.
        simpl in Hsome. lia.
    + intros Hv.
      destruct (IH v Hv) as (i & camera & Hi & Hcam & -> & Hlater).
      exists i, camera. split; [done|].
      split; [rewrite lookup_app_l; [done|]; by eapply lookup_lt_Some|].
      split; [done|]. intros j camera' Hj Hidx Hsome.
      destruct (decide (j = length cameras)) as [->|Hjne]; [congruence|].
      apply (Hlater j camera' Hj Hidx).
      rewrite lookup_app_l in Hsome; [done|].
      apply lookup_lt_Some in Hsome. rewrite length_app in Hsome.
      simpl in Hsome. lia.
Qed.

Lemma place_names_positional (available : list Z)
    (cameras : list (option string)) (i : nat) (idx : Z) (camera : option string) :
  NoDup available →
  available !! i = Some idx →
  cameras !! i = Some camera →
  foldl (λ (camera_names : gmap Z string) '(i, camera),
           match available !! (i : nat) with
           | Some idx =>
               <[idx := default ("Camera " +:+ str idx) camera]> camera_names
           | None => camera_names
           end)
        ∅ (zip (seq 0 (length cameras)) cameras) !! idx
  = Some (default ("Camera " +:+ str idx) camera).
Proof.
  intros Hnodup Hi. revert camera.
  induction cameras as [|c cameras IH] using rev_ind; intros camera Hcam; [done|].
  rewrite length_app. simpl length.
  rewrite seq_app, zip_with_app by by rewrite length_seq.
  rewrite foldl_app. cbn [zip_with foldl seq Nat.add].
  destruct (decide (i = length cameras)) as [->|Hne].
  - rewrite Hi, lookup_insert_eq.
    rewrite lookup_app_r, Nat.sub_diag in Hcam by lia. by injection Hcam as ->.
  - assert (cameras !! i = Some camera) as Hcam'.
    { rewrite lookup_app_l in Hcam; [done|].
      apply lookup_lt_Some in Hcam. rewrite length_app in Hcam.
      simpl in Hcam. lia. }
    destruct (available !! length cameras) as [idx'|] eqn:Hlast; [|by apply IH].
    rewrite lookup_insert_ne; [by apply IH|].
    intros ->. apply Hne. by apply (NoDup_lookup available _ _ idx).
Qed.

(** X24. [get_camera_names] names every detected index and no other. When
    the query to the system fails, or lists no camera, every name is the
    default ["Camera <index>"]. *)
Theorem camera_names_cover_detected (self : CameraManager) (host : Host) :
  (∀ idx, is_Some (get_camera_names self host !! idx)
          ↔ idx ∈ available_cameras self)
  ∧ (system_profiler host = None ∨ system_profiler host = Some [] →
     ∀ idx, idx ∈ available_cameras self →
            get_camera_names self host !! idx = Some ("Camera " +:+ str idx)).
Proof.
  unfold get_camera_names. split.
  - intros idx. rewrite fill_names_lookup.
    destruct (system_profiler host) as [cameras|].
    + match goal with |- context [foldl ?f ∅ ?l !! idx] =>
        destruct (foldl f ∅ l !! idx) as [v|] eqn:Hv end.
      * apply place_names_lookup in Hv as (i & camera & Hi & _).
        split; [intros _|by eauto]. apply list_elem_of_lookup. by eauto.
      * case_bool_decide as Hin.
        -- split; [done|]. by eauto.
        -- split; [by intros []|done].
    + rewrite lookup_empty. case_bool_decide as Hin.
      * split; [done|]. by eauto.
      * split; [by intros []|done].
  - intros Hquiet idx Hidx. rewrite fill_names_lookup.
    assert (match system_profiler host with
            | Some cameras =>
                foldl (λ (camera_names : gmap Z string) '(i, camera),
                         match available_cameras self !! (i : nat) with
                         | Some idx =>
                             <[idx := default ("Camera " +:+ str idx) camera]>
                               camera_names
                         | None => camera_names
                         end) ∅ (zip (seq 0 (length cameras)) cameras)
            | None => ∅
            end = ∅) as ->
      by (by destruct Hquiet as [-> | ->]).
    rewrite lookup_empty. by rewrite bool_decide_eq_true_2.
Qed.

Lemma camera_names_cover_detected_witness :
  get_camera_names lone_camera silent_host !! 0 = Some "Camera 0"
  ∧ ¬ is_Some (get_camera_names lone_camera silent_host !! 1).
Proof.
  destruct (camera_names_cover_detected lone_camera silent_host)
    as [Hcover Hdefault].
  split.
  - apply (Hdefault (or_introl eq_refl) 0). by left.
  - rewrite (Hcover 1). simpl. rewrite elem_of_cons, elem_of_nil.
    intros [Heq|[]]. discriminate Heq.
Defined.

(** X25. [get_camera_names] pairs names and indices by position: with no
    index detected twice, the index detected at position [i] gets the
    [_name] of the camera the system lists at position [i], whatever
    device that is, and its default name when that camera has no [_name]
    or the list is shorter. *)
Theorem camera_names_by_position
    (self : CameraManager) (host : Host) (i : nat) (idx : Z) :
  NoDup (available_cameras self) →
  available_cameras self !! i = Some idx →
  get_camera_names self host !! idx
  = Some (match system_profiler host with
          | Some cameras =>
              match cameras !! i with
              | Some (Some camera_name) => camera_name
              | _ => "Camera " +:+ str idx
              end
          | None => "Camera " +:+ str idx
          end).
Proof.
  intros Hnodup Hi. unfold get_camera_names. rewrite fill_names_lookup.
  assert (idx ∈ available_cameras self) as Hin
    by (apply list_elem_of_lookup; by eauto).
  destruct (system_profiler host) as [cameras|];
    [|by rewrite lookup_empty, bool_decide_eq_true_2].
  destruct (cameras !! i) as [camera|] eqn:Hcam.
  - rewrite (place_names_positional _ _ i idx camera) by done.
    by destruct camera.
  - match goal with |- context [foldl ?f ∅ ?l !! idx] =>
      destruct (foldl f ∅ l !! idx) as [v|] eqn:Hv end;
      [|by rewrite bool_decide_eq_true_2].
    apply place_names_lookup in Hv as (j & camera & Hj & Hcamj & _).
    assert (j = i) as -> by by apply (NoDup_lookup (available_cameras self) _ _ idx).
    congruence.
Qed.

Lemma camera_names_by_position_witness :
  get_camera_names {| available_cameras := [0; 3]; camera_feeds := ∅ |}
    {| system_profiler := Some [None; Some "FaceTime HD"; Some "unused"];
       iphone_camera := None |} !! 3
  = Some "FaceTime HD".
Proof.
  apply (camera_names_by_position
           {| available_cameras := [0; 3]; camera_feeds := ∅ |}
           {| system_profiler := Some [None; Some "FaceTime HD"; Some "unused"];
              iphone_camera := None |} 1 3); [|reflexivity].
  apply NoDup_cons. split; [|apply NoDup_singleton].
  rewrite elem_of_cons, elem_of_nil. intros [Heq|[]]. discriminate Heq.
Defined.

(** ** The cameras offered, and the two the panel takes *)

(** The indices listed before the "Try Camera" entries. *)
Lemma options_shape (self : CameraManager) (host : Host) :
  ∃ listed : list (Z * string),
    get_available_camera_options self host
    = listed ++ (try_option <$> filter (λ idx, idx ∉ listed.*1) [2; 3; 4; 5])
    ∧ listed.*1
      = available_cameras self
        ++ match iphone_camera host with
           | Some iphone_idx =>
               if bool_decide (iphone_idx ∉ available_cameras self)
               then [iphone_idx] else []
           | None => []
           end.
Proof.
  assert (NoDup [2; 3; 4; 5]) as Hnodup.
  { repeat (apply NoDup_cons; split;
            [rewrite ?not_elem_of_cons; repeat split; try lia; apply not_elem_of_nil|]).
    apply NoDup_nil_2. }
  assert (∀ names, (detected_option names <$> available_cameras self).*1
                   = available_cameras self) as Hdetected.
  { intros names. rewrite <- list_fmap_compose. apply list_fmap_id. }
  unfold get_available_camera_options.
  rewrite (try_options_appended _ Hnodup). eexists. split; [reflexivity|].
  destruct (iphone_camera host) as [iphone_idx|].
  - case_bool_decide.
    + by rewrite fmap_app, Hdetected.
    + by rewrite Hdetected, app_nil_r.
  - by rewrite Hdetected, app_nil_r.
Qed.

Lemma options_have_guesses (self : CameraManager) (host : Host) (idx : Z) :
  idx ∈ [2; 3; 4; 5] → idx ∈ (get_available_camera_options self host).*1.
Proof.
  intros Hidx. destruct (options_shape self host) as (listed & -> & _).
  rewrite fmap_app, elem_of_app.
  destruct (decide (idx ∈ listed.*1)) as [Hin|Hout]; [by left|right].
  rewrite <- list_fmap_compose. apply list_elem_of_fmap.
  exists idx. split; [done|]. by apply list_elem_of_filter.
Qed.

Lemma options_indices_NoDup (self : CameraManager) (host : Host) :
  NoDup (available_cameras self) →
  NoDup (get_available_camera_options self host).*1.
Proof.
  intros Hnodup. destruct (options_shape self host) as (listed & -> & Hlisted).
  rewrite fmap_app. apply NoDup_app. split; [|split].
  - rewrite Hlisted. apply NoDup_app. split; [done|]. split.
    + intros x Hx. destruct (iphone_camera host) as [i|]; [|apply not_elem_of_nil].
      case_bool_decide as Hi; [|apply not_elem_of_nil].
      rewrite elem_of_cons, elem_of_nil. intros [->|[]]. by apply Hi.
    + destruct (iphone_camera host) as [i|]; [|apply NoDup_nil_2].
      case_bool_decide; [apply NoDup_singleton|apply NoDup_nil_2].
  - intros x Hx. rewrite <- list_fmap_compose.
    intros (y & -> & Hy)%list_elem_of_fmap.
    apply list_elem_of_filter in Hy as [Hout _]. by apply Hout.
  - rewrite <- list_fmap_compose.
    assert (∀ l : list Z, fst ∘ try_option <$> l = l) as ->
      by (intros l; apply list_fmap_id).
    apply NoDup_filter.
    repeat (apply NoDup_cons; split;
            [rewrite ?not_elem_of_cons; repeat split; try lia; apply not_elem_of_nil|]).
    apply NoDup_nil_2.
Qed.

(** X26. [get_available_camera_options] always offers the indices 2, 3, 4
    and 5, as detected cameras, as the iPhone camera or as "Try Camera"
    entries, and every detected index; so it never returns fewer than four
    entries. With no index detected twice, no index is offered twice. *)
Theorem camera_options_offer_2_to_5 (self : CameraManager) (host : Host) :
  let options := get_available_camera_options self host in
  (∀ idx, idx ∈ [2; 3; 4; 5] → idx ∈ options.*1)
  ∧ (∀ idx, idx ∈ available_cameras self → idx ∈ options.*1)
  ∧ (4 ≤ length options)%nat
  ∧ (NoDup (available_cameras self) → NoDup options.*1).
Proof.
  intros options. subst options.
  split; [intros idx; apply options_have_guesses|].
  split.
  { intros idx Hidx. destruct (options_shape self host) as (listed & -> & Hlisted).
    rewrite fmap_app, elem_of_app. left. rewrite Hlisted, elem_of_app. by left. }
  split; [|apply options_indices_NoDup].
  rewrite <- (length_fmap fst).
  change 4%nat with (length [2; 3; 4; 5]).
  apply submseteq_length, NoDup_submseteq.
  - repeat (apply NoDup_cons; split;
            [rewrite ?not_elem_of_cons; repeat split; try lia; apply not_elem_of_nil|]).
    apply NoDup_nil_2.
  - intros idx. apply options_have_guesses.
Qed.

Lemma camera_options_offer_2_to_5_witness :
  NoDup (get_available_camera_options lone_camera silent_host).*1
  ∧ 4 ∈ (get_available_camera_options lone_camera silent_host).*1.
Proof.
  destruct (camera_options_offer_2_to_5 lone_camera silent_host)
    as (Hguesses & _ & _ & Hnodup).
  split.
  - apply Hnodup. apply NoDup_singleton.
  - apply Hguesses. rewrite !elem_of_cons. tauto.
Defined.

(** X27. The camera panel always finds two options to take its cameras
    from: the fallback indices 0 and 1 of [create_widgets] are never used.
    The RGB feed gets the first detected camera when there is one; with no
    index detected twice the two feeds get different cameras; and when
    nothing was detected and no iPhone found they get the indices 2
    and 3. *)
Theorem panel_takes_first_two_options (self : CameraManager) (host : Host) :
  let options := get_available_camera_options self host in
  ∃ option0 option1 rest,
    options = option0 :: option1 :: rest
    ∧ panel_camera_indices options = (option0.1, option1.1)
    ∧ (∀ first others, available_cameras self = first :: others →
                       option0.1 = first)
    ∧ (NoDup (available_cameras self) → option0.1 ≠ option1.1)
    ∧ (available_cameras self = [] → iphone_camera host = None →
       panel_camera_indices options = (2, 3)).
Proof.
  intros options.
  assert (4 ≤ length options)%nat as Hlen.
  { subst options. rewrite <- (length_fmap fst).
    change 4%nat with (length [2; 3; 4; 5]).
    apply submseteq_length, NoDup_submseteq; [|intros idx; apply options_have_guesses].
    repeat (apply NoDup_cons; split;
            [rewrite ?not_elem_of_cons; repeat split; try lia; apply not_elem_of_nil|]).
    apply NoDup_nil_2. }
  destruct options as [|option0 [|option1 rest]] eqn:Hoptions;
    [simpl in Hlen; lia..|].
  exists option0, option1, rest. split; [done|]. split; [done|].
  destruct (options_shape self host) as (listed & Hshape & Hlisted).
  fold options in Hshape. rewrite Hoptions in Hshape.
  split; [|split].
  - intros first others Havailable. rewrite Havailable in Hlisted.
    destruct listed as [|l0 listed']; [discriminate Hlisted|].
    simpl in Hshape, Hlisted. injection Hshape as -> _.
    by injection Hlisted as -> _.
  - intros Hnodup. pose proof (options_indices_NoDup self host Hnodup) as Hnd.
    fold options in Hnd. rewrite Hoptions in Hnd. simpl in Hnd.
    apply NoDup_cons in Hnd as [Hnotin _]. intros Heq. apply Hnotin.
    rewrite Heq. by left.
  - intros Hnone Hiphone. rewrite Hnone, Hiphone in Hlisted.
    destruct listed; [|discriminate Hlisted].
    simpl in Hshape. by injection Hshape as -> -> _.
Qed.

Lemma panel_takes_first_two_options_witness :
  ∃ second,
    panel_camera_indices (get_available_camera_options lone_camera silent_host)
    = (0, second)
    ∧ 0 ≠ second.
Proof.
  destruct (panel_takes_first_two_options lone_camera silent_host)
    as (option0 & option1 & rest & _ & Hpanel & Hfirst & Hdiffer & _).
  exists option1.1. rewrite Hpanel.
  rewrite <- (Hfirst 0 [] eq_refl).
  split; [reflexivity|]. apply Hdiffer, NoDup_singleton.
Defined.

(** ** Removing feeds *)

Lemma disconnect_run (s : Ctx) :
  disconnect s =
    (Ok (), {| self := disconnected (self s);
               world := released (camera (self s)) (world s) |}).
Proof.
  destruct s as [[idx nm cam act conn proc th stop raw made cbs] w].
  unfold disconnect, stop_feed, disconnected, released.
  cbv [mbind method_bind assign get cv2 cap_release with_captures mret method_ret].
  by destruct cam.
Qed.

Lemma released_opened (cam : option nat) (w : World) (k : nat) :
  isOpened k (released cam w) = true → isOpened k w = true.
Proof.
  destruct cam as [cam|]; [|done]. unfold released, isOpened, cap_release. cbn.
  destruct (decide (k = cam)) as [->|Hne].
  - rewrite lookup_alter_eq. by destruct (captures w !! cam).
  - by rewrite lookup_alter_ne.
Qed.

Lemma released_closed (cam : nat) (w : World) :
  isOpened cam (released (Some cam) w) = false.
Proof.
  unfold released, isOpened, cap_release. cbn. rewrite lookup_alter_eq.
  by destruct (captures w !! cam).
Qed.

Lemma released_others (cam : option nat) (w : World) (k : nat) :
  cam ≠ Some k → captures (released cam w) !! k = captures w !! k.
Proof.
  destruct cam as [cam|]; [|done]. intros Hne.
  unfold released, cap_release. cbn. rewrite lookup_alter_ne; [done|congruence].
Qed.

Lemma remove_feed_run (manager : CameraManager) (feed_name : string) (st : Store) :
  remove_feed manager feed_name st =
    match camera_feeds manager !! feed_name with
    | Some address =>
        ({| available_cameras := available_cameras manager;
            camera_feeds := delete feed_name (camera_feeds manager) |},
         match objects st !! address with
         | Some f =>
             {| objects := <[address := disconnected f]> (objects st);
                outside := released (camera f) (outside st) |}
         | None => st
         end)
    | None => (manager, st)
    end.
Proof.
  unfold remove_feed.
  destruct (camera_feeds manager !! feed_name) as [address|]; [|done].
  destruct (objects st !! address) as [f|]; [|done].
  by rewrite disconnect_run.
Qed.

(** X28. [remove_feed] of a name that is not registered changes nothing.
    Of a registered name, it takes the name out of the registry and
    disconnects its feed: the feed object is left without camera, not
    connected and not active, the capture it held is released; the other
    names, the other feed objects and the other captures are untouched. *)
Theorem remove_feed_unbinds_and_disconnects
    (manager : CameraManager) (feed_name : string) (st : Store) :
  (camera_feeds manager !! feed_name = None →
   remove_feed manager feed_name st = (manager, st))
  ∧ ∀ address f,
      camera_feeds manager !! feed_name = Some address →
      objects st !! address = Some f →
      let manager' := (remove_feed manager feed_name st).1 in
      let st' := (remove_feed manager feed_name st).2 in
      get_feed manager' feed_name = None
      ∧ (∀ other, other ≠ feed_name →
                  get_feed manager' other = get_feed manager other)
      ∧ available_cameras manager' = available_cameras manager
      ∧ objects st' !! address = Some (disconnected f)
      ∧ (∀ other, other ≠ address → objects st' !! other = objects st !! other)
      ∧ (∀ cam, camera f = Some cam → isOpened cam (outside st') = false)
      ∧ (∀ k, camera f ≠ Some k →
              captures (outside st') !! k = captures (outside st) !! k).
Proof.
  rewrite remove_feed_run. split; [by intros ->|].
  intros address f -> ->. unfold get_feed. cbn.
  split; [apply lookup_delete_eq|].
  split; [intros other Hother; by rewrite lookup_delete_ne|].
  split; [done|]. split; [apply lookup_insert_eq|].
  split; [intros other Hother; by rewrite lookup_insert_ne|].
  split; [intros cam ->; apply released_closed|].
  intros k Hk. by apply released_others.
Qed.

Lemma remove_feed_unbinds_and_disconnects_witness :
  get_feed (remove_feed busy_manager "rgb_feed" busy_store).1 "rgb_feed" = None
  ∧ isOpened 0 (outside (remove_feed busy_manager "rgb_feed" busy_store).2) = false
  ∧ remove_feed busy_manager "nir_feed" busy_store = (busy_manager, busy_store).
Proof.
  destruct (remove_feed_unbinds_and_disconnects busy_manager "rgb_feed" busy_store)
    as [_ Hpresent].
  destruct (Hpresent 0%nat (self connected_feed) eq_refl eq_refl)
    as (Hgone & _ & _ & _ & _ & Hclosed & _).
  split; [exact Hgone|]. split; [by apply Hclosed|].
  by apply (remove_feed_unbinds_and_disconnects busy_manager "nir_feed" busy_store).
Defined.

(** One [remove_feed], seen from any feed object and any capture. *)
Lemma remove_feed_step (manager : CameraManager) (feed_name : string) (st : Store) :
  let manager' := (remove_feed manager feed_name st).1 in
  let st' := (remove_feed manager feed_name st).2 in
  camera_feeds manager' = delete feed_name (camera_feeds manager)
  ∧ available_cameras manager' = available_cameras manager
  ∧ (∀ address,
       match objects st !! address with
       | Some f =>
           objects st' !! address = Some f
           ∨ (objects st' !! address = Some (disconnected f)
              ∧ camera_feeds manager !! feed_name = Some address
              ∧ ∀ cam, camera f = Some cam → isOpened cam (outside st') = false)
       | None => objects st' !! address = None
       end)
  ∧ (∀ k, isOpened k (outside st') = true → isOpened k (outside st) = true)
  ∧ (∀ k, (∀ address f, camera_feeds manager !! feed_name = Some address →
                        objects st !! address = Some f → camera f ≠ Some k) →
          captures (outside st') !! k = captures (outside st) !! k).
Proof.
  rewrite remove_feed_run.
  destruct (camera_feeds manager !! feed_name) as [a|] eqn:Hname; cbn.
  2: { split; [by rewrite delete_id|]. split; [done|].
       split; [|done]. intros address.
       destruct (objects st !! address); [by left|done]. }
  split; [done|]. split; [done|].
  destruct (objects st !! a) as [f|] eqn:Hobject; cbn.
  2: { split; [|done]. intros address.
       destruct (objects st !! address); [by left|done]. }
  split; [|split].
  - intros address. destruct (decide (address = a)) as [->|Hne].
    + rewrite Hobject, lookup_insert_eq. right.
      split; [done|]. split; [done|]. intros cam ->. apply released_closed.
    + rewrite lookup_insert_ne by done.
      destruct (objects st !! address); [by left|done].
  - intros k. apply released_opened.
  - intros k Hk. apply released_others. by apply (Hk a f).
Qed.

Lemma remove_feeds_cons (feed_name : string) (names : list string)
    (manager : CameraManager) (st : Store) :
  remove_feeds (feed_name :: names) manager st
  = remove_feeds names (remove_feed manager feed_name st).1
                       (remove_feed manager feed_name st).2.
Proof.
  unfold remove_feeds. cbn [foldl].
  by destruct (remove_feed manager feed_name st).
Qed.

Lemma disconnected_fields (f : CameraFeed) :
  camera (disconnected f) = None
  ∧ is_connected (disconnected f) = false
  ∧ is_active (disconnected f) = false.
Proof. done. Qed.

Lemma feed_done_step (f : CameraFeed) (address : nat)
    (manager : CameraManager) (feed_name : string) (st : Store) :
  feed_done f st address →
  feed_done f (remove_feed manager feed_name st).2 address.
Proof.
  intros (f' & Hobject & Hcam & Hconn & Hactive & Hclosed).
  destruct (remove_feed_step manager feed_name st)
    as (_ & _ & Hobjects & Hopened & _).
  specialize (Hobjects address). rewrite Hobject in Hobjects.
  assert (∀ cam, camera f = Some cam →
            isOpened cam (outside (remove_feed manager feed_name st).2) = false)
    as Hstill.
  { intros cam Hheld. specialize (Hclosed cam Hheld).
    destruct (isOpened cam (outside (remove_feed manager feed_name st).2))
      eqn:Hnow; [|done].
    apply Hopened in Hnow. congruence. }
  destruct Hobjects as [Hsame|(Hdisc & _)].
  - by exists f'.
  - exists (disconnected f'). by repeat split.
Qed.

Lemma feed_done_kept (names : list string) :
  ∀ (f : CameraFeed) (address : nat) (manager : CameraManager) (st : Store),
    feed_done f st address →
    feed_done f (remove_feeds names manager st).2 address.
Proof.
  induction names as [|feed_name names IH]; intros f address manager st Hdone;
    [done|].
  rewrite remove_feeds_cons. by apply IH, feed_done_step.
Qed.

Lemma remove_feed_hit (manager : CameraManager) (feed_name : string)
    (st : Store) (address : nat) (f : CameraFeed) :
  camera_feeds manager !! feed_name = Some address →
  objects st !! address = Some f →
  feed_done f (remove_feed manager feed_name st).2 address.
Proof.
  intros Hname Hobject. rewrite remove_feed_run, Hname, Hobject. cbn.
  exists (disconnected f). split; [apply lookup_insert_eq|].
  split; [done|]. split; [done|]. split; [done|].
  intros cam ->. apply released_closed.
Qed.

Lemma remove_feeds_done (names : list string) :
  ∀ (manager : CameraManager) (st : Store) (feed_name : string)
    (address : nat) (f : CameraFeed),
    feed_name ∈ names →
    camera_feeds manager !! feed_name = Some address →
    objects st !! address = Some f →
    feed_done f (remove_feeds names manager st).2 address.
Proof.
  induction names as [|first names IH];
    intros manager st feed_name address f Hin Hname Hobject.
  - by apply elem_of_nil in Hin.
  - rewrite remove_feeds_cons.
    destruct (decide (first = feed_name)) as [->|Hne].
    { by apply feed_done_kept, remove_feed_hit. }
    destruct (remove_feed_step manager first st)
      as (Hfeeds & _ & Hobjects & _ & _).
    specialize (Hobjects address). rewrite Hobject in Hobjects.
    destruct Hobjects as [Hsame|(Hdisc & Hfirst & Hclosed)].
    + apply elem_of_cons in Hin as [->|Hin]; [done|].
      apply (IH _ _ feed_name); [done| |done].
      rewrite Hfeeds. by rewrite lookup_delete_ne.
    + apply feed_done_kept. exists (disconnected f). by repeat split.
Qed.

Lemma remove_feeds_names (names : list string) :
  ∀ (manager : CameraManager) (st : Store) (feed_name : string),
    camera_feeds (remove_feeds names manager st).1 !! feed_name
    = (if bool_decide (feed_name ∈ names) then None
       else camera_feeds manager !! feed_name)
    ∧ available_cameras (remove_feeds names manager st).1
      = available_cameras manager.
Proof.
  induction names as [|first names IH]; intros manager st feed_name; [done|].
  rewrite remove_feeds_cons.
  destruct (remove_feed_step manager first st) as (Hfeeds & Havailable & _).
  destruct (IH (remove_feed manager first st).1 (remove_feed manager first st).2
               feed_name) as [-> ->].
  split; [|done]. rewrite Hfeeds.
  destruct (decide (feed_name = first)) as [->|Hne].
  - rewrite lookup_delete_eq.
    rewrite (bool_decide_eq_true_2 (first ∈ first :: names)) by by left.
    by case_bool_decide.
  - rewrite lookup_delete_ne by done.
    assert (bool_decide (feed_name ∈ first :: names)
            = bool_decide (feed_name ∈ names)) as ->; [|done].
    apply bool_decide_ext. rewrite elem_of_cons.
    split; [intros [Heq|Hin]; [by destruct Hne|done]|by right].
Qed.

(** What [remove_feed] for each of [names] does not reach: the feed
    objects registered under no name, and the captures no registered feed
    holds. *)
Lemma remove_feeds_untouched (names : list string) :
  ∀ (manager : CameraManager) (st : Store),
    (∀ address,
       (∀ feed_name, camera_feeds manager !! feed_name ≠ Some address) →
       objects (remove_feeds names manager st).2 !! address
       = objects st !! address)
    ∧ (∀ k,
         (∀ feed_name address f,
            camera_feeds manager !! feed_name = Some address →
            objects st !! address = Some f → camera f ≠ Some k) →
         captures (outside (remove_feeds names manager st).2) !! k
         = captures (outside st) !! k).
Proof.
  induction names as [|first names IH]; intros manager st; [done|].
  rewrite remove_feeds_cons.
  destruct (remove_feed_step manager first st)
    as (Hfeeds & _ & Hobjects & _ & Hcaptures).
  destruct (IH (remove_feed manager first st).1 (remove_feed manager first st).2)
    as [IHobjects IHcaptures].
  assert (∀ feed_name address,
            camera_feeds (remove_feed manager first st).1 !! feed_name
            = Some address →
            camera_feeds manager !! feed_name = Some address) as Hsub.
  { intros feed_name address. rewrite Hfeeds.
    by intros [_ ?]%lookup_delete_Some. }
  split.
  - intros address Hfree. rewrite IHobjects.
    + specialize (Hobjects address).
      destruct (objects st !! address) as [f|]; [|done].
      destruct Hobjects as [Hsame|(_ & Hfirst & _)]; [done|].
      by destruct (Hfree first).
    + intros feed_name Hbound. by apply (Hfree feed_name), Hsub.
  - intros k Hfree. rewrite IHcaptures.
    + apply Hcaptures. intros address f. by apply Hfree.
    + intros feed_name address f1 Hbound Hobject1.
      apply Hsub in Hbound. specialize (Hobjects address).
      destruct (objects st !! address) as [f|] eqn:Hobject;
        [|congruence].
      destruct Hobjects as [Hsame|(Hdisc & _)].
      * assert (f1 = f) as -> by congruence. by apply (Hfree feed_name address).
      * assert (f1 = disconnected f) as -> by congruence. done.
Qed.

(** X29. [cleanup] empties the registry and disconnects every registered
    feed: each feed object is left without camera, not connected and not
    active, and the capture it held is released. The list of detected
    cameras is kept. *)
Theorem cleanup_disconnects_every_feed (manager : CameraManager) (st : Store) :
  camera_feeds (cleanup manager st).1 = ∅
  ∧ available_cameras (cleanup manager st).1 = available_cameras manager
  ∧ ∀ feed_name address f,
      camera_feeds manager !! feed_name = Some address →
      objects st !! address = Some f →
      ∃ f', objects (cleanup manager st).2 !! address = Some f'
            ∧ camera f' = None
            ∧ is_connected f' = false
            ∧ is_active f' = false
            ∧ ∀ cam, camera f = Some cam →
                     isOpened cam (outside (cleanup manager st).2) = false.
Proof.
  unfold cleanup.
  assert (∀ feed_name address,
            camera_feeds manager !! feed_name = Some address →
            feed_name ∈ (map_to_list (camera_feeds manager)).*1) as Hlisted.
  { intros feed_name address Hbound. apply list_elem_of_fmap.
    exists (feed_name, address). split; [done|].
    by apply elem_of_map_to_list. }
  split; [|split].
  - apply map_empty. intros feed_name.
    rewrite (proj1 (remove_feeds_names _ manager st feed_name)).
    case_bool_decide as Hin; [done|].
    destruct (camera_feeds manager !! feed_name) as [address|] eqn:Hbound; [|done].
    destruct Hin. by apply (Hlisted feed_name address).
  - apply remove_feeds_names. exact "".
  - intros feed_name address f Hbound Hobject.
    apply (remove_feeds_done _ manager st feed_name); [|done..].
    by apply (Hlisted feed_name address).
Qed.

Lemma cleanup_disconnects_every_feed_witness :
  camera_feeds (cleanup busy_manager busy_store).1 = ∅
  ∧ isOpened 0 (outside (cleanup busy_manager busy_store).2) = false.
Proof.
  destruct (cleanup_disconnects_every_feed busy_manager busy_store)
    as (Hempty & _ & Hdone).
  split; [exact Hempty|].
  destruct (Hdone "rgb_feed" 0%nat (self connected_feed) eq_refl eq_refl)
    as (f' & _ & _ & _ & _ & Hclosed).
  by apply Hclosed.
Defined.

(** X30. [cleanup] only reaches the feeds that are registered. A feed
    that [create_camera_feed] has replaced under its name is out of its
    reach: after the replacement and a [cleanup], that feed object is as
    it was, and the capture it holds, when no registered feed holds it
    too, is as it was, so still open if it was open. *)
Theorem cleanup_misses_replaced_feed
    (manager : CameraManager) (host : Host) (st : Store) (camera_index : Z)
    (feed_name : string) (old : nat) (f : CameraFeed) (cam : nat) :
  camera_feeds manager !! feed_name = Some old →
  objects st !! old = Some f →
  camera f = Some cam →
  (∀ other, camera_feeds manager !! other = Some old → other = feed_name) →
  (∀ other address f', camera_feeds manager !! other = Some address →
                       objects st !! address = Some f' →
                       camera f' = Some cam → address = old) →
  let created := create_camera_feed manager camera_index feed_name host st in
  let st' := (cleanup created.1.2 created.2).2 in
  objects st' !! old = Some f
  ∧ captures (outside st') !! cam = captures (outside st) !! cam
  ∧ isOpened cam (outside st') = isOpened cam (outside st).
Proof.
  intros Hbound Hobject Hcam Honly Hholder created st'.
  subst created st'. unfold create_camera_feed, cleanup. cbn [fst snd].
  set (new := fresh (dom (objects st))).
  assert (new ≠ old) as Hnew.
  { intros Heq. apply (is_fresh (dom (objects st))). fold new. rewrite Heq.
    apply elem_of_dom. by eexists. }
  match goal with |- context [remove_feeds ?names ?m ?s] =>
    destruct (remove_feeds_untouched names m s) as [Hobjects Hcaptures];
    set (final := (remove_feeds names m s).2) in *
  end.
  cbn [camera_feeds objects outside] in Hobjects, Hcaptures.
  assert (objects final !! old = Some f) as Hkept.
  { rewrite Hobjects; [by rewrite lookup_insert_ne|].
    intros other. destruct (decide (other = feed_name)) as [->|Hother].
    - rewrite lookup_insert_eq. congruence.
    - rewrite lookup_insert_ne by done. intros Hold.
      by apply Hother, Honly. }
  assert (captures (outside final) !! cam = captures (outside st) !! cam)
    as Hsame.
  { rewrite Hcaptures; [done|].
    intros other address f' Hother Hthere Hheld.
    destruct (decide (address = new)) as [->|Haddress].
    - rewrite lookup_insert_eq in Hthere. injection Hthere as <-.
      discriminate Hheld.
    - rewrite lookup_insert_ne in Hthere by done.
      destruct (decide (other = feed_name)) as [->|Hne].
      + rewrite lookup_insert_eq in Hother. congruence.
      + rewrite lookup_insert_ne in Hother by done.
        assert (address = old) as -> by by apply (Hholder other address f').
        by apply Hne, Honly. }
  split; [exact Hkept|]. split; [exact Hsame|].
  unfold isOpened. by rewrite Hsame.
Qed.

Lemma cleanup_misses_replaced_feed_witness :
  isOpened 0
    (outside (cleanup
       (create_camera_feed busy_manager 1 "rgb_feed" silent_host busy_store).1.2
       (create_camera_feed busy_manager 1 "rgb_feed" silent_host busy_store).2).2)
  = true.
Proof.
  destruct (cleanup_misses_replaced_feed busy_manager silent_host busy_store 1
              "rgb_feed" 0 (self connected_feed) 0)
    as (_ & _ & Hopen).
  - reflexivity.
  - reflexivity.
  - reflexivity.
  - intros other Hother.
    destruct (decide (other = "rgb_feed")) as [->|Hne]; [done|].
    unfold busy_manager in Hother. cbn in Hother.
    by rewrite lookup_singleton_ne in Hother.
  - intros other address f' Hother _ _.
    destruct (decide (other = "rgb_feed")) as [->|Hne].
    + unfold busy_manager in Hother. cbn in Hother.
      rewrite lookup_singleton_eq in Hother. by injection Hother as <-.
    + unfold busy_manager in Hother. cbn in Hother.
      by rewrite lookup_singleton_ne in Hother.
  - rewrite Hopen. vm_compute. reflexivity.
Defined.

Lemma disconnect_releases_witness :
  camera (self (feed (call_disconnect true started_feed))) = None
  ∧ isOpened 0 (world (feed (call_disconnect true started_feed))) = false.
Proof.
  destruct (disconnect_releases true started_feed)
    as (Hself & _ & _ & _ & Hclosed & _).
  split; [by rewrite Hself|]. by apply Hclosed.
Defined.

Lemma detect_cameras_finds_readable_witness :
  (∃ w', detect_cameras lone_camera 20 three_cameras
         = ([0; 1], {| available_cameras := [0; 1]; camera_feeds := ∅ |}, w'))
  ∧ (∃ w', detect_cameras lone_camera (-1) three_cameras
           = ([], {| available_cameras := []; camera_feeds := ∅ |}, w')).
Proof.
  destruct (detect_cameras_finds_readable lone_camera 20 three_cameras)
    as (w' & Hrun & _).
  destruct (detect_cameras_finds_readable lone_camera (-1) three_cameras)
    as (w2 & Hrun2 & _ & _ & Hnone).
  split.
  - exists w'. rewrite Hrun. vm_compute. reflexivity.
  - exists w2. rewrite Hrun2, Hnone; [reflexivity|lia].
Defined.

Lemma detect_cameras_leaves_nothing_open_witness :
  ∃ found self' w',
    detect_cameras lone_camera 20 three_cameras = (found, self', w')
    ∧ ∀ k, isOpened k w' = false.
Proof.
  destruct (detect_cameras_leaves_nothing_open lone_camera 20 three_cameras)
    as (found & self' & w' & Hrun & _ & _ & Hopen & _).
  exists found, self', w'. split; [exact Hrun|].
  intros k. destruct (isOpened k w') eqn:Hk; [|done].
  apply Hopen in Hk. discriminate Hk.
Defined.
